(** * notely: the public share-token allocator and the entry routes

    A shallow embedding of [server/src/routes/entries.ts] and
    [server/src/routes/notes.ts].

    The route handlers are asynchronous functions that talk to three
    collaborators: the Prisma client (the relational store), Node's
    [crypto.randomBytes] and the AI note service.  Each such call is an
    operation [Op]; a handler is a program [Prog] over these operations;
    [exec] runs a program against any behaviour of the collaborators and
    records the calls that were made.  The reference store [prisma] is a
    finite map from primary ids to rows. *)

From Stdlib Require Import Strings.Byte Strings.Ascii Strings.String NArith Lia.
From stdpp Require Import base option list strings gmap fin_maps.
From Stdlib Require Import Sorting.Sorted.

Local Open Scope string_scope.

(** ** Rows of the relational store *)

(** Modelled from the spec: the [Entry] model of the Prisma schema, which is
    not among the sources.  The columns are the ones the routes read and
    write; [publicShareId] is the optional token of the spec's data model;
    timestamps are kept as abstract instants. *)
Record Entry := mkEntry {
  id : string;
  title : string;
  synopsis : string;
  content : string;
  userId : string;
  categoryId : string;
  pinned : bool;
  isPublic : bool;
  publicShareId : option string;
  isDeleted : bool;
  createdAt : nat;
  updatedAt : nat
}.

(** The columns of [Category] and [Bookmark] that the routes select. *)
Record Category := mkCategory {
  category_id : string;
  category_name : string
}.

Record Bookmark := mkBookmark {
  bookmark_userId : string;
  bookmark_entryId : string
}.

(** [include: { category: { select: { id: true, name: true } } }] *)
Record EntryWithCategory := mkIncluded {
  row : Entry;
  category : option Category
}.

(** ** Errors *)

Inductive Error :=
| JsError (message : string)        (* [throw new Error(message)] *)
| PrismaError (code : string)       (* raised by the store client *)
| ServiceError (message : string).  (* raised by another collaborator *)

Inductive Result (X : Type) :=
| Ok (x : X)
| Fail (e : Error).
Arguments Ok {X} x.
Arguments Fail {X} e.

(** ** Hexadecimal encoding: [Buffer.toString("hex")] *)

Definition hex_digit (n : N) : ascii :=
  match n with
  | 0%N => "0" | 1%N => "1" | 2%N => "2" | 3%N => "3"
  | 4%N => "4" | 5%N => "5" | 6%N => "6" | 7%N => "7"
  | 8%N => "8" | 9%N => "9" | 10%N => "a" | 11%N => "b"
  | 12%N => "c" | 13%N => "d" | 14%N => "e" | _ => "f"
  end%char.

Fixpoint toString_hex (buf : list byte) : string :=
  match buf with
  | [] => ""
  | b :: rest =>
      String (hex_digit (Byte.to_N b / 16))
        (String (hex_digit (Byte.to_N b mod 16)) (toString_hex rest))
  end.

Definition is_hex_char (c : ascii) : bool :=
  let n := N_of_ascii c in
  ((48 <=? n) && (n <=? 57) || (97 <=? n) && (n <=? 102))%N.

Fixpoint all_hex (s : string) : bool :=
  match s with
  | EmptyString => true
  | String c rest => is_hex_char c && all_hex rest
  end.

(** A 16-character hexadecimal string. *)
Definition is_share_token (s : string) : Prop :=
  String.length s = 16 /\ all_hex s = true.

(** ** Calls to the collaborators *)

(** [where] of [findUnique]: a unique column. *)
Inductive EntryWhereUnique :=
| ById (i : string)
| ByPublicShareId (token : string).

(** [where] of [findFirst] and [findMany]: a conjunction of the fields given. *)
Record EntryWhere := mkWhere {
  where_id : option string;
  where_userId : option string;
  where_isDeleted : option bool
}.

Inductive OrderBy :=
| PinnedDesc
| CreatedAtDesc.

(** [data] of [prisma.entry.create]; a field that is [None] is left out. *)
Module EntryCreateInput.
Record t := mk {
  title : string;
  synopsis : string;
  content : string;
  userId : string;
  categoryId : string;
  pinned : option bool;
  isPublic : bool;
  publicShareId : option (option string)
}.
End EntryCreateInput.

(** What a PATCH may send as [isPublic].  The body of a PATCH is not
    validated (in [notes.ts] it is declared [any]): the handlers test the
    truthiness of the value and hand the value itself to
    [prisma.entry.update], which takes a boolean or the object
    [{ set: b }] and rejects anything else. *)
Inductive BoolInput :=
| Plain (b : bool)        (* [true], [false] *)
| SetTo (b : bool)        (* [{ set: b }], an object and so truthy *)
| Other (truthy : bool).  (* [null], a number, a string, another object *)

(** [if (v)] *)
Definition is_truthy (v : BoolInput) : bool :=
  match v with
  | Plain b => b
  | SetTo _ => true
  | Other t => t
  end.

(** The boolean that [update] writes, when it accepts the value. *)
Definition bool_written (v : BoolInput) : option bool :=
  match v with
  | Plain b | SetTo b => Some b
  | Other _ => None
  end.

(** [updateData]: the object built field by field in the PATCH handlers.
    [None] is a key that was never set; for [publicShareId] the value
    [Some None] is an explicit [null]; [isPublic] is the value of the body
    as it came. *)
Module UpdateData.
Record t := mk {
  title : option string;
  synopsis : option string;
  content : option string;
  categoryId : option string;
  pinned : option bool;
  isPublic : option BoolInput;
  publicShareId : option (option string);
  isDeleted : option bool
}.
Definition empty : t := mk None None None None None None None None.
Definition set_title v d := mk (Some v) (synopsis d) (content d) (categoryId d) (pinned d) (isPublic d) (publicShareId d) (isDeleted d).
Definition set_synopsis v d := mk (title d) (Some v) (content d) (categoryId d) (pinned d) (isPublic d) (publicShareId d) (isDeleted d).
Definition set_content v d := mk (title d) (synopsis d) (Some v) (categoryId d) (pinned d) (isPublic d) (publicShareId d) (isDeleted d).
Definition set_categoryId v d := mk (title d) (synopsis d) (content d) (Some v) (pinned d) (isPublic d) (publicShareId d) (isDeleted d).
Definition set_pinned v d := mk (title d) (synopsis d) (content d) (categoryId d) (Some v) (isPublic d) (publicShareId d) (isDeleted d).
Definition set_isPublic v d := mk (title d) (synopsis d) (content d) (categoryId d) (pinned d) (Some v) (publicShareId d) (isDeleted d).
Definition set_publicShareId v d := mk (title d) (synopsis d) (content d) (categoryId d) (pinned d) (isPublic d) (Some v) (isDeleted d).
Definition set_isDeleted v d := mk (title d) (synopsis d) (content d) (categoryId d) (pinned d) (isPublic d) (publicShareId d) (Some v).
End UpdateData.

Inductive NoteLength := Short | Medium | Long.

Module GenerateNoteOptions.
Record t := mk {
  title : option string;
  synopsis : option string;
  audience : option string;
  tone : option string;
  length : option NoteLength
}.
End GenerateNoteOptions.

(** One constructor per call shape used by the routes below.  The boolean
    of the entry calls says whether [include: entryInclude] was passed.
    Permanent deletion and the bookmark writes are left out: what the store
    does there depends on the referential actions of the schema, which is
    not among the sources, and they never write [isPublic] or
    [publicShareId]. *)
Inductive Op : Type -> Type :=
| RandomBytes (n : nat) : Op (list byte)
| GenerateFullNote (options : GenerateNoteOptions.t) : Op string
| EntryFindUnique (w : EntryWhereUnique) (include : bool) : Op (option EntryWithCategory)
| EntryFindFirst (w : EntryWhere) (include : bool) : Op (option EntryWithCategory)
| EntryFindMany (w : EntryWhere) (orderBy : list OrderBy) (include : bool) : Op (list EntryWithCategory)
| EntryCreate (data : EntryCreateInput.t) (include : bool) : Op EntryWithCategory
| EntryUpdate (i : string) (data : UpdateData.t) (include : bool) : Op EntryWithCategory
| CategoryFindUnique (i : string) : Op (option Category)
| BookmarkFindMany (user : string) : Op (list (Bookmark * EntryWithCategory)).

(** ** Programs *)

(** A program either finishes, throws, or awaits a call and continues with
    what the call produced (a value, or an error raised by the collaborator). *)
Inductive Prog (A : Type) : Type :=
| Ret (a : A)
| Throw (e : Error)
| OutOfFuel
| Call {X : Type} (op : Op X) (k : Result X -> Prog A).
Arguments Ret {A} a.
Arguments Throw {A} e.
Arguments OutOfFuel {A}.
Arguments Call {A X} op k.

Fixpoint bind {A B : Type} (p : Prog A) (f : A -> Prog B) : Prog B :=
  match p with
  | Ret a => f a
  | Throw e => Throw e
  | OutOfFuel => OutOfFuel
  | Call op k => Call op (fun r => bind (k r) f)
  end.

(** [await op]: the awaited call; a rejected promise is rethrown. *)
Definition await {X : Type} (op : Op X) : Prog X :=
  Call op (fun r => match r with Ok x => Ret x | Fail e => Throw e end).

(** [try { body } catch (err) { handler }] *)
Fixpoint try_catch {A : Type} (body : Prog A) (handler : Error -> Prog A) : Prog A :=
  match body with
  | Ret a => Ret a
  | Throw e => handler e
  | OutOfFuel => OutOfFuel
  | Call op k => Call op (fun r => try_catch (k r) handler)
  end.

Declare Scope prog_scope.
Delimit Scope prog_scope with prog.
Notation "x <- p ;; q" := (bind p (fun x => q))
  (at level 100, p at next level, right associativity) : prog_scope.
Local Open Scope prog_scope.

(** ** Running a program *)

(** What the collaborators do: any function from a call and the state of
    the world to an answer and a new state. *)
Definition Handler (W : Type) : Type := forall X : Type, Op X -> W -> Result X * W.

Inductive Event :=
| Ev {X : Type} (op : Op X) (answer : Result X).

Inductive Outcome (A : Type) :=
| Returned (a : A)
| Thrown (e : Error)
| Unfinished.
Arguments Returned {A} a.
Arguments Thrown {A} e.
Arguments Unfinished {A}.

Fixpoint exec {W A : Type} (h : Handler W) (p : Prog A) (w : W)
  : Outcome A * W * list Event :=
  match p with
  | Ret a => (Returned a, w, [])
  | Throw e => (Thrown e, w, [])
  | OutOfFuel => (Unfinished, w, [])
  | Call op k =>
      let '(r, w1) := h _ op w in
      let '(o, w2, tr) := exec h (k r) w1 in
      (o, w2, Ev op r :: tr)
  end.

(** The existence probes of a trace: the tokens looked up, with whether the
    store reported a row bound to it. *)
Definition probe_of (ev : Event) : option (string * bool) :=
  match ev with
  | Ev (EntryFindUnique (ByPublicShareId token) _) (Ok (Some _)) => Some (token, true)
  | Ev (EntryFindUnique (ByPublicShareId token) _) (Ok None) => Some (token, false)
  | Ev (EntryFindUnique (ByPublicShareId token) _) (Fail _) => Some (token, false)
  | Ev _ _ => None
  end.

Definition probes (tr : list Event) : list (string * bool) := omap probe_of tr.

(** Calls that write to the entry table. *)
Definition is_entry_write (ev : Event) : bool :=
  match ev with
  | Ev (EntryCreate _ _) _ | Ev (EntryUpdate _ _ _) _ => true
  | Ev _ _ => false
  end.

(** ** The allocator (the same text in [entries.ts] and [notes.ts]) *)

Definition generateShareId : Prog string :=
  buf <- await (RandomBytes 8) ;;
  Ret (toString_hex buf).

Definition MAX_ATTEMPTS : nat := 5.

Definition exhausted : Error :=
  JsError "Failed to generate a unique publicShareId after multiple attempts.".

(** The [while (attempts < MAX_ATTEMPTS)] loop; [fuel] bounds the number
    of times the loop condition is evaluated. *)
Fixpoint while_attempts (fuel attempts : nat) : Prog string :=
  match fuel with
  | 0 => OutOfFuel
  | S fuel' =>
      if (attempts <? MAX_ATTEMPTS)%nat then
        let attempts := (attempts + 1)%nat in
        candidate <- generateShareId ;;
        conflict <- await (EntryFindUnique (ByPublicShareId candidate) false) ;;
        match conflict with
        | None => Ret candidate
        | Some _ => while_attempts fuel' attempts
        end
      else Throw exhausted
  end.

Definition generateUniqueShareId : Prog string :=
  while_attempts (S MAX_ATTEMPTS) 0.

(** ** The reference store *)

Record World := mkWorld {
  entries : gmap string Entry;          (* the Entry table, by primary id *)
  categories : gmap string Category;    (* the Category table *)
  bookmarks : list Bookmark;            (* the Bookmark table *)
  entropy : nat -> byte;                (* the bytes [crypto] will deliver *)
  entropy_used : nat;
  fresh_ids : nat -> string;            (* the ids the store will assign *)
  ids_used : nat;
  now : nat;                            (* the store's clock *)
  ai : GenerateNoteOptions.t -> Result string  (* the note service *)
}.

Definition with_include (cats : gmap string Category) (include : bool) (e : Entry)
  : EntryWithCategory :=
  mkIncluded e (if include then cats !! categoryId e else None).

Definition rows (m : gmap string Entry) : list Entry := (map_to_list m).*2.

(** The row bound to a token, if any. *)
Definition find_by_token (m : gmap string Entry) (token : string) : option Entry :=
  List.find (fun e => bool_decide (publicShareId e = Some token)) (rows m).

(** The conditions of a [where] on the columns other than the id. *)
Definition matches (wh : EntryWhere) (e : Entry) : bool :=
  match where_userId wh with Some u => bool_decide (userId e = u) | None => true end
  && match where_isDeleted wh with Some d => bool_decide (isDeleted e = d) | None => true end.

(** Rows selected by a [where]; a given id is looked up by the primary key. *)
Definition select (wh : EntryWhere) (m : gmap string Entry) : list Entry :=
  List.filter (matches wh)
    match where_id wh with
    | Some i => option_list (m !! i)
    | None => rows m
    end.

Fixpoint precedes (orderBy : list OrderBy) (a b : Entry) : bool :=
  match orderBy with
  | [] => true
  | PinnedDesc :: more =>
      if bool_decide (pinned a = pinned b) then precedes more a b else pinned a
  | CreatedAtDesc :: more =>
      if bool_decide (createdAt a = createdAt b) then precedes more a b
      else (createdAt b <? createdAt a)%nat
  end.

Fixpoint insert_ordered (orderBy : list OrderBy) (x : Entry) (l : list Entry) : list Entry :=
  match l with
  | [] => [x]
  | y :: rest =>
      if precedes orderBy y x then y :: insert_ordered orderBy x rest
      else x :: y :: rest
  end.

Definition order_rows (orderBy : list OrderBy) (l : list Entry) : list Entry :=
  List.fold_left (fun acc x => insert_ordered orderBy x acc) l [].

(** Modelled from the spec: the row that [create] inserts.  The column
    defaults belong to the schema, which is not among the sources: [pinned]
    and [isDeleted] default to false, and [publicShareId], optional in the
    spec's data model, to null. *)
Definition create_row (i : string) (t : nat) (d : EntryCreateInput.t) : Entry :=
  {| id := i;
     title := EntryCreateInput.title d;
     synopsis := EntryCreateInput.synopsis d;
     content := EntryCreateInput.content d;
     userId := EntryCreateInput.userId d;
     categoryId := EntryCreateInput.categoryId d;
     pinned := default false (EntryCreateInput.pinned d);
     isPublic := EntryCreateInput.isPublic d;
     publicShareId := default None (EntryCreateInput.publicShareId d);
     isDeleted := false;
     createdAt := t;
     updatedAt := t |}.

(** The row after [update]: a key that was set replaces the column. *)
Definition update_row (t : nat) (d : UpdateData.t) (e : Entry) : Entry :=
  {| id := id e;
     title := default (title e) (UpdateData.title d);
     synopsis := default (synopsis e) (UpdateData.synopsis d);
     content := default (content e) (UpdateData.content d);
     userId := userId e;
     categoryId := default (categoryId e) (UpdateData.categoryId d);
     pinned := default (pinned e) (UpdateData.pinned d);
     isPublic := default (isPublic e) (UpdateData.isPublic d ≫= bool_written);
     publicShareId := default (publicShareId e) (UpdateData.publicShareId d);
     isDeleted := default (isDeleted e) (UpdateData.isDeleted d);
     createdAt := createdAt e;
     updatedAt := t |}.

Definition P2002 : Error := PrismaError "P2002". (* unique constraint failed *)
Definition P2003 : Error := PrismaError "P2003". (* foreign key constraint failed *)
Definition P2025 : Error := PrismaError "P2025". (* record to update not found *)

(** The client checks the [data] of an [update] before it queries the
    store ([PrismaClientValidationError]). *)
Definition ValidationError : Error := PrismaError "PrismaClientValidationError".

Definition valid_update (d : UpdateData.t) : bool :=
  match UpdateData.isPublic d with
  | Some (Other _) => false
  | _ => true
  end.

(** The store, the random source and the note service as one handler.
    Ids and timestamps are assigned by the store; [categoryId] is a foreign
    key (the routes include the category of an entry); the note service,
    [generateFullNote] of [services/aiServices.ts], is not among the sources
    and answers as [ai] says.  The store does not itself reject a second
    row with the same [publicShareId]: that no such write is ever attempted
    is proved of the routes below, from the probe alone. *)
Definition prisma : Handler World := fun X op =>
  match op in Op X return World -> Result X * World with
  | RandomBytes n => fun w =>
      (Ok (List.map (entropy w) (seq (entropy_used w) n)),
       mkWorld (entries w) (categories w) (bookmarks w) (entropy w)
               (entropy_used w + n) (fresh_ids w) (ids_used w) (now w) (ai w))
  | GenerateFullNote options => fun w => (ai w options, w)
  | EntryFindUnique (ById i) include => fun w =>
      (Ok (with_include (categories w) include <$> entries w !! i), w)
  | EntryFindUnique (ByPublicShareId token) include => fun w =>
      (Ok (with_include (categories w) include <$> find_by_token (entries w) token), w)
  | EntryFindFirst wh include => fun w =>
      (Ok (with_include (categories w) include <$> head (select wh (entries w))), w)
  | EntryFindMany wh orderBy include => fun w =>
      (Ok (with_include (categories w) include <$> order_rows orderBy (select wh (entries w))), w)
  | EntryCreate data include => fun w =>
      let i := fresh_ids w (ids_used w) in
      let w1 := mkWorld (entries w) (categories w) (bookmarks w) (entropy w)
                        (entropy_used w) (fresh_ids w) (S (ids_used w)) (now w) (ai w) in
      match entries w !! i, categories w !! EntryCreateInput.categoryId data with
      | Some _, _ => (Fail P2002, w1)
      | None, None => (Fail P2003, w1)
      | None, Some _ =>
          let e := create_row i (now w) data in
          (Ok (with_include (categories w) include e),
           mkWorld (<[i := e]> (entries w)) (categories w) (bookmarks w) (entropy w)
                   (entropy_used w) (fresh_ids w) (S (ids_used w)) (S (now w)) (ai w))
      end
  | EntryUpdate i data include => fun w =>
      if negb (valid_update data) then (Fail ValidationError, w) else
      match entries w !! i with
      | None => (Fail P2025, w)
      | Some old =>
          let e := update_row (now w) data old in
          match UpdateData.categoryId data ≫= fun c =>
                  match categories w !! c with Some _ => None | None => Some c end with
          | Some _ => (Fail P2003, w)
          | None =>
              (Ok (with_include (categories w) include e),
               mkWorld (<[i := e]> (entries w)) (categories w) (bookmarks w) (entropy w)
                       (entropy_used w) (fresh_ids w) (ids_used w) (S (now w)) (ai w))
          end
      end
  | CategoryFindUnique i => fun w => (Ok (categories w !! i), w)
  | BookmarkFindMany user => fun w =>
      (Ok (omap (fun b =>
                   if bool_decide (bookmark_userId b = user)
                   then (fun e => (b, with_include (categories w) true e))
                          <$> entries w !! bookmark_entryId b
                   else None)
                (bookmarks w)), w)
  end.

(** ** What a route answers *)

(** [select: { id, publicShareId, title, synopsis, content }] *)
Record NoteSelection := mkNoteSelection {
  sel_id : string;
  sel_publicShareId : option string;
  sel_title : string;
  sel_synopsis : string;
  sel_content : string
}.

Definition note_selection (e : Entry) : NoteSelection :=
  {| sel_id := id e;
     sel_publicShareId := publicShareId e;
     sel_title := title e;
     sel_synopsis := synopsis e;
     sel_content := content e |}.

Inductive Json :=
| JMessage (message : string)                     (* [{ message }] *)
| JError (error : string)                         (* [{ error }] *)
| JEntry (entry : EntryWithCategory)              (* [{ entry }] *)
| JEntries (entries : list EntryWithCategory)     (* [{ entries }] *)
| JBookmarked (entries : list EntryWithCategory)  (* entries with [bookmarked: true] *)
| JNote (entry : NoteSelection)                   (* [{ entry: updated }] *)
| JGenerated (note : string) (saved : option (string * option string)).

Inductive Reply :=
| Respond (status : nat) (body : Json)   (* [res.status(status).json(body)] *)
| Next (err : Error).                    (* [next(err)] *)

(** ** JavaScript values of a request body *)

(** A field of a request body is [None] when its key is absent
    ([undefined]), so that [x !== undefined] is a [match] and [x ?? v] is
    [default v x].  The [isPublic] of an update is a [BoolInput]: it is
    both tested and written, and an object [{ set: false }] is truthy where
    it is tested and false where it is written.  The other fields have the
    type the handler declares or destructures, and so has the [isPublic]
    of the two creating routes: [create], unlike [update], takes a boolean
    only. *)

(** Truthiness of an optional boolean. *)
Definition truthy (b : option bool) : bool := default false b.

(** An optional string when it is truthy: present and not empty. *)
Definition nonempty (s : option string) : option string :=
  match s with
  | Some "" | None => None
  | Some s => Some s
  end.

(** ** routes/entries.ts *)

Module EntryCreationData.
Record t := mk {
  title : option string;
  synopsis : option string;
  content : option string;
  categoryId : option string;
  pinned : option bool;
  isPublic : option bool
}.
End EntryCreationData.

Module EntryUpdateData.
Record t := mk {
  title : option string;
  synopsis : option string;
  content : option string;
  categoryId : option string;
  pinned : option bool;
  isPublic : option BoolInput
}.
End EntryUpdateData.

(** [if (v !== undefined) updateData.key = v] *)
Definition set_if {V} (v : option V) (set : V -> UpdateData.t -> UpdateData.t)
    (d : UpdateData.t) : UpdateData.t :=
  match v with Some x => set x d | None => d end.

(** The handlers after [router.use(requireAuth)] take the authenticated
    user, [req.user!.id], as [user]. *)
Module Entries.

(** [GET /public/entries/:id] *)
Definition get_public (i : string) : Prog Reply :=
  try_catch
    (entry <- await (EntryFindUnique (ById i) true) ;;
     match entry with
     | None => Ret (Respond 404 (JMessage "Entry not found or is private."))
     | Some e =>
         if negb (isPublic (row e))
         then Ret (Respond 404 (JMessage "Entry not found or is private."))
         else Ret (Respond 200 (JEntry e))
     end)
    (fun err => Ret (Respond 500 (JMessage "An unexpected error occurred."))).

(** [POST /] *)
Definition post (user : string) (body : EntryCreationData.t) : Prog Reply :=
  try_catch
    (match nonempty (EntryCreationData.title body),
           nonempty (EntryCreationData.synopsis body),
           nonempty (EntryCreationData.content body),
           nonempty (EntryCreationData.categoryId body) with
     | Some title, Some synopsis, Some content, Some categoryId =>
         categoryExists <- await (CategoryFindUnique categoryId) ;;
         match categoryExists with
         | None => Ret (Respond 404 (JMessage "Invalid categoryId provided."))
         | Some _ =>
             let isPublic := EntryCreationData.isPublic body in
             publicShareId <-
               (if truthy isPublic
                then (t <- generateUniqueShareId ;; Ret (Some t))
                else Ret None) ;;
             entry <- await (EntryCreate
               {| EntryCreateInput.title := title;
                  EntryCreateInput.synopsis := synopsis;
                  EntryCreateInput.content := content;
                  EntryCreateInput.userId := user;
                  EntryCreateInput.categoryId := categoryId;
                  EntryCreateInput.pinned := Some (default false (EntryCreationData.pinned body));
                  EntryCreateInput.isPublic := default false isPublic;
                  EntryCreateInput.publicShareId :=
                    if truthy isPublic then Some publicShareId else None |}
               true) ;;
             Ret (Respond 201 (JEntry entry))
         end
     | _, _, _, _ =>
         Ret (Respond 400 (JMessage "Title, synopsis, content, and categoryId are required."))
     end)
    (fun err => Ret (Next err)).

(** [GET /]; the dates of the rows are sent as they are. *)
Definition get_all (user : string) : Prog Reply :=
  try_catch
    (entries <- await (EntryFindMany (mkWhere None (Some user) (Some false))
                                     [PinnedDesc; CreatedAtDesc] true) ;;
     Ret (Respond 200 (JEntries entries)))
    (fun err => Ret (Next err)).

(** [GET /trash] *)
Definition get_trash (user : string) : Prog Reply :=
  try_catch
    (entries <- await (EntryFindMany (mkWhere None (Some user) (Some true))
                                     [CreatedAtDesc] true) ;;
     Ret (Respond 200 (JEntries entries)))
    (fun err => Ret (Next err)).

(** [GET /:id] *)
Definition get_one (user i : string) : Prog Reply :=
  try_catch
    (entry <- await (EntryFindFirst (mkWhere (Some i) (Some user) (Some false)) true) ;;
     match entry with
     | None => Ret (Respond 404 (JMessage "Entry not found."))
     | Some e => Ret (Respond 200 (JEntry e))
     end)
    (fun err => Ret (Next err)).

(** [PATCH /:id] *)
Definition patch (user i : string) (body : EntryUpdateData.t) : Prog Reply :=
  try_catch
    (existing <- await (EntryFindFirst (mkWhere (Some i) (Some user) None) false) ;;
     match existing with
     | None => Ret (Respond 404 (JMessage "Entry not found."))
     | Some existing =>
         if isDeleted (row existing)
         then Ret (Respond 404 (JMessage "Entry not found."))
         else
           let updateData := UpdateData.empty in
           let updateData := set_if (EntryUpdateData.title body) UpdateData.set_title updateData in
           let updateData := set_if (EntryUpdateData.synopsis body) UpdateData.set_synopsis updateData in
           let updateData := set_if (EntryUpdateData.content body) UpdateData.set_content updateData in
           let rest updateData :=
             let updateData := set_if (EntryUpdateData.pinned body) UpdateData.set_pinned updateData in
             updateData <-
               match EntryUpdateData.isPublic body with
               | Some isPublic =>
                   let updateData := UpdateData.set_isPublic isPublic updateData in
                   if is_truthy isPublic
                   then (t <- generateUniqueShareId ;;
                         Ret (UpdateData.set_publicShareId (Some t) updateData))
                   else Ret (UpdateData.set_publicShareId None updateData)
               | None => Ret updateData
               end ;;
             entry <- await (EntryUpdate i updateData true) ;;
             Ret (Respond 200 (JEntry entry)) in
           match EntryUpdateData.categoryId body with
           | Some categoryId =>
               valid <- await (CategoryFindUnique categoryId) ;;
               match valid with
               | None => Ret (Respond 404 (JMessage "Invalid categoryId provided."))
               | Some _ => rest (UpdateData.set_categoryId categoryId updateData)
               end
           | None => rest updateData
           end
     end)
    (fun err => Ret (Next err)).

(** [PATCH /restore/:id] *)
Definition restore (user i : string) : Prog Reply :=
  try_catch
    (existing <- await (EntryFindFirst (mkWhere (Some i) (Some user) None) false) ;;
     match existing with
     | None => Ret (Respond 404 (JMessage "Entry not found in trash."))
     | Some existing =>
         if negb (isDeleted (row existing))
         then Ret (Respond 404 (JMessage "Entry not found in trash."))
         else
           entry <- await (EntryUpdate i (UpdateData.set_isDeleted false UpdateData.empty) true) ;;
           Ret (Respond 200 (JEntry entry))
     end)
    (fun err => Ret (Next err)).

(** [DELETE /:id] (soft delete) *)
Definition soft_delete (user i : string) : Prog Reply :=
  try_catch
    (existing <- await (EntryFindFirst (mkWhere (Some i) (Some user) None) false) ;;
     match existing with
     | None => Ret (Respond 404 (JMessage "Entry not found."))
     | Some existing =>
         if isDeleted (row existing)
         then Ret (Respond 404 (JMessage "Entry not found."))
         else
           entry <- await (EntryUpdate i (UpdateData.set_isDeleted true UpdateData.empty) true) ;;
           Ret (Respond 200 (JEntry entry))
     end)
    (fun err => Ret (Next err)).

(** [GET /bookmarks/all] *)
Definition bookmarks_all (user : string) : Prog Reply :=
  try_catch
    (bookmarks <- await (BookmarkFindMany user) ;;
     Ret (Respond 200 (JBookmarked (List.map snd bookmarks))))
    (fun err => Ret (Next err)).

End Entries.

(** ** routes/notes.ts *)

(** String methods used for the fallback title.  A character stands for
    one UTF-16 code unit below 256. *)
Module Js.

(** [\s], and the characters removed by [trim]. *)
Definition is_space (c : ascii) : bool :=
  let n := N_of_ascii c in
  ((9 <=? n) && (n <=? 13) || (n =? 32) || (n =? 160))%N.

(** [s.split("\n")[0]] *)
Fixpoint first_line (s : string) : string :=
  match s with
  | EmptyString => EmptyString
  | String c rest =>
      if Ascii.eqb c "010" then EmptyString else String c (first_line rest)
  end.

Fixpoint drop_while (p : ascii -> bool) (s : string) : string :=
  match s with
  | EmptyString => EmptyString
  | String c rest => if p c then drop_while p rest else s
  end.

Definition is_marker (c : ascii) : bool :=
  Ascii.eqb c "#" || Ascii.eqb c ">" || Ascii.eqb c "-" || Ascii.eqb c "*".

(** [s.replace(/^[#>\-*]+\s*/, "")] *)
Definition strip_marker (s : string) : string :=
  match s with
  | String c _ => if is_marker c then drop_while is_space (drop_while is_marker s) else s
  | EmptyString => s
  end.

Fixpoint trim_end (s : string) : string :=
  match s with
  | EmptyString => EmptyString
  | String c rest =>
      match trim_end rest with
      | EmptyString => if is_space c then EmptyString else String c EmptyString
      | rest' => String c rest'
      end
  end.

Definition trim (s : string) : string := trim_end (drop_while is_space s).

(** [s.substring(0, n)] *)
Definition substring0 (n : nat) (s : string) : string := String.substring 0 n s.

End Js.

Module GenerateBody.
Record t := mk {
  title : option string;
  synopsis : option string;
  audience : option string;
  tone : option string;
  length : option NoteLength;
  save : option bool;
  categoryId : option string;
  isPublic : option bool
}.
End GenerateBody.

Module NoteUpdateBody.
Record t := mk {
  title : option string;
  synopsis : option string;
  content : option string;
  categoryId : option string;
  isPublic : option BoolInput
}.
End NoteUpdateBody.

Module Notes.

(** [POST /generate]; [user] is [req.user] as left by the middleware. *)
Definition generate (user : option string) (body : GenerateBody.t) : Prog Reply :=
  match user with
  | None => Ret (Respond 401 (JError "Unauthorized"))
  | Some userId =>
      let title := GenerateBody.title body in
      let synopsis := GenerateBody.synopsis body in
      let save := truthy (GenerateBody.save body) in
      let categoryId := nonempty (GenerateBody.categoryId body) in
      let isPublic := GenerateBody.isPublic body in
      if save && negb (bool_decide (is_Some categoryId))
      then Ret (Respond 400 (JError "Saving requires a categoryId."))
      else
        try_catch
          (let options :=
             {| GenerateNoteOptions.title := nonempty title;
                GenerateNoteOptions.synopsis := nonempty synopsis;
                GenerateNoteOptions.audience := nonempty (GenerateBody.audience body);
                GenerateNoteOptions.tone := nonempty (GenerateBody.tone body);
                GenerateNoteOptions.length := GenerateBody.length body |} in
           generatedNote <- await (GenerateFullNote options) ;;
           savedEntry <-
             match save, categoryId with
             | true, Some categoryId =>
                 let fallbackTitle :=
                   Js.substring0 100 (Js.trim (Js.strip_marker (Js.first_line generatedNote))) in
                 let safeTitle := default fallbackTitle title in
                 let safeSynopsis := default safeTitle synopsis in
                 publicShareId_ <-
                   (if truthy isPublic
                    then (t <- generateUniqueShareId ;; Ret (Some t))
                    else Ret None) ;;
                 savedEntry <- await (EntryCreate
                   {| EntryCreateInput.title := safeTitle;
                      EntryCreateInput.synopsis := safeSynopsis;
                      EntryCreateInput.content := generatedNote;
                      EntryCreateInput.userId := userId;
                      EntryCreateInput.categoryId := categoryId;
                      EntryCreateInput.pinned := None;
                      EntryCreateInput.isPublic := default false isPublic;
                      EntryCreateInput.publicShareId :=
                        if truthy isPublic then Some publicShareId_ else None |}
                   false) ;;
                 Ret (Some (id (row savedEntry), publicShareId (row savedEntry)))
             | _, _ => Ret None
             end ;;
           Ret (Respond 200 (JGenerated generatedNote savedEntry)))
          (fun error => Ret (Respond 500 (JError "Failed to generate or save note.")))
  end.

(** [PATCH /:id] *)
Definition patch (user i : string) (body : NoteUpdateBody.t) : Prog Reply :=
  try_catch
    (existing <- await (EntryFindFirst (mkWhere (Some i) (Some user) None) false) ;;
     match existing with
     | None => Ret (Respond 404 (JMessage "Note not found."))
     | Some existing =>
         let updateData := UpdateData.empty in
         let updateData := set_if (NoteUpdateBody.title body) UpdateData.set_title updateData in
         let updateData := set_if (NoteUpdateBody.synopsis body) UpdateData.set_synopsis updateData in
         let updateData := set_if (NoteUpdateBody.content body) UpdateData.set_content updateData in
         let rest updateData :=
           updateData <-
             match NoteUpdateBody.isPublic body with
             | Some isPublic =>
                 let updateData := UpdateData.set_isPublic isPublic updateData in
                 updateData <-
                   (if is_truthy isPublic
                       && negb (bool_decide (is_Some (nonempty (publicShareId (row existing)))))
                    then (t <- generateUniqueShareId ;;
                          Ret (UpdateData.set_publicShareId (Some t) updateData))
                    else Ret updateData) ;;
                 if negb (is_truthy isPublic)
                 then Ret (UpdateData.set_publicShareId None updateData)
                 else Ret updateData
             | None => Ret updateData
             end ;;
           updated <- await (EntryUpdate i updateData false) ;;
           Ret (Respond 200 (JNote (note_selection (row updated)))) in
         match NoteUpdateBody.categoryId body with
         | Some categoryId =>
             valid <- await (CategoryFindUnique categoryId) ;;
             match valid with
             | None => Ret (Respond 404 (JMessage "Invalid categoryId."))
             | Some _ => rest (UpdateData.set_categoryId categoryId updateData)
             end
         | None => rest updateData
         end
     end)
    (fun err => Ret (Respond 500 (JError "Failed to update note."))).

End Notes.

(** ** Requests *)

Inductive ReadRequest :=
| GetPublicEntry (i : string)
| GetEntries (user : string)
| GetTrash (user : string)
| GetEntry (user i : string)
| GetBookmarks (user : string).

Inductive WriteRequest :=
| PostEntry (user : string) (body : EntryCreationData.t)
| PatchEntry (user i : string) (body : EntryUpdateData.t)
| RestoreEntry (user i : string)
| DeleteEntry (user i : string)
| GenerateNote (user : option string) (body : GenerateBody.t)
| PatchNote (user i : string) (body : NoteUpdateBody.t).

Inductive Request :=
| Read (r : ReadRequest)
| Write (r : WriteRequest).

(** The router tries its routes in the order they were registered.
    [GetEntry user i] is the request [GET /<i>]: with an empty [i] the path
    is the one of [router.get("/")], and [router.get("/trash")] comes
    before [router.get("/:id")], so that only other paths reach the
    latter.  The paths of the other routes differ in their number of
    segments or in their method; the id of a write request is a path
    segment and so not empty. *)
Definition serve_read (r : ReadRequest) : Prog Reply :=
  match r with
  | GetPublicEntry i => Entries.get_public i
  | GetEntries user => Entries.get_all user
  | GetTrash user => Entries.get_trash user
  | GetEntry user i =>
      if bool_decide (i = "") then Entries.get_all user
      else if bool_decide (i = "trash") then Entries.get_trash user
      else Entries.get_one user i
  | GetBookmarks user => Entries.bookmarks_all user
  end.

Definition serve_write (r : WriteRequest) : Prog Reply :=
  match r with
  | PostEntry user body => Entries.post user body
  | PatchEntry user i body => Entries.patch user i body
  | RestoreEntry user i => Entries.restore user i
  | DeleteEntry user i => Entries.soft_delete user i
  | GenerateNote user body => Notes.generate user body
  | PatchNote user i body => Notes.patch user i body
  end.

Definition serve (r : Request) : Prog Reply :=
  match r with
  | Read r => serve_read r
  | Write r => serve_write r
  end.

(** Requests served one after the other, each to its end before the
    next one starts. *)
Definition serve_all {W : Type} (h : Handler W) (rs : list Request) (w : W) : W :=
  List.fold_left (fun w r => (exec h (serve r) w).1.2) rs w.

(** Two handlers in flight.  Node runs one handler at a time and may switch
    to another one wherever the first awaits, that is at every call.  The
    [schedule] says whose call comes next ([true] for the first program); a
    program that has ended lets its turn pass, and when the schedule is
    used up the first program runs to its end and then the second. *)
Fixpoint interleave {W A B : Type} (h : Handler W) (schedule : list bool)
    (p : Prog A) (q : Prog B) (w : W) : Outcome A * Outcome B * W :=
  match schedule with
  | [] =>
      let '(a, w1, _) := exec h p w in
      let '(b, w2, _) := exec h q w1 in
      (a, b, w2)
  | true :: rest =>
      match p with
      | Call op k => let '(r, w1) := h _ op w in interleave h rest (k r) q w1
      | _ => interleave h rest p q w
      end
  | false :: rest =>
      match q with
      | Call op k => let '(r, w1) := h _ op w in interleave h rest p (k r) w1
      | _ => interleave h rest p q w
      end
  end.

(** ** routes/notes.ts: the pieces of [POST /generate] *)

(** The [options] that [POST /generate] hands to the note service: the
    fields of the body that are truthy. *)
Definition note_options (body : GenerateBody.t) : GenerateNoteOptions.t :=
  {| GenerateNoteOptions.title := nonempty (GenerateBody.title body);
     GenerateNoteOptions.synopsis := nonempty (GenerateBody.synopsis body);
     GenerateNoteOptions.audience := nonempty (GenerateBody.audience body);
     GenerateNoteOptions.tone := nonempty (GenerateBody.tone body);
     GenerateNoteOptions.length := GenerateBody.length body |}.

(** [generatedNote.split("\n")[0].replace(/^[#>\-*]+\s*/, "").trim().substring(0, 100)] *)
Definition fallbackTitle (generatedNote : string) : string :=
  Js.substring0 100 (Js.trim (Js.strip_marker (Js.first_line generatedNote))).

(** ** client/src/pages/SharedNotePage.tsx *)

(** The name under which [handleDownloadPdf] saves the note.  As in [Js],
    a character stands for one UTF-16 code unit below 256. *)
Module SharedNotePage.

(** A character of [[a-z0-9]], case ignored. *)
Definition is_alnum (c : ascii) : bool :=
  let n := N_of_ascii c in
  ((48 <=? n) && (n <=? 57) || (65 <=? n) && (n <=? 90) || (97 <=? n) && (n <=? 122))%N.

(** [s.replace(/[^a-z0-9]/gi, '_')] *)
Fixpoint replace_non_alnum (s : string) : string :=
  match s with
  | EmptyString => EmptyString
  | String c rest => String (if is_alnum c then c else "_"%char) (replace_non_alnum rest)
  end.

(** [`${entry.title.replace(/[^a-z0-9]/gi, '_')}.pdf`] *)
Definition filename (title : string) : string :=
  (replace_non_alnum title ++ ".pdf")%string.

End SharedNotePage.

(** * Vocabulary of the properties *)

Local Open Scope list_scope.

(** ** Rounds of the allocator *)

(** One round of the loop on its own: draw a candidate and probe it. *)
Definition attempt : Prog (string * bool) :=
  candidate <- generateShareId ;;
  conflict <- await (EntryFindUnique (ByPublicShareId candidate) false) ;;
  Ret (candidate, bool_decide (is_Some conflict)).

(** What the collaborators answer to [n] rounds in a row from [w]: the
    candidates drawn, each with whether the store reported a conflict.  The
    list is cut short where a call fails. *)
Fixpoint attempts {W : Type} (h : Handler W) (n : nat) (w : W)
  : list (string * bool) * W :=
  match n with
  | 0 => ([], w)
  | S n' =>
      match exec h attempt w with
      | (Returned a, w1, _) =>
          let '(l, w2) := attempts h n' w1 in (a :: l, w2)
      | (_, w1, _) => ([], w1)
      end
  end.

(** The calls the allocator may make. *)
Definition is_allocator_call (ev : Event) : bool :=
  match ev with
  | Ev (RandomBytes 8) _ => true
  | Ev (EntryFindUnique (ByPublicShareId _) false) _ => true
  | Ev _ _ => false
  end.

(** The error of a call that the collaborator rejected. *)
Definition rejected (ev : Event) : option Error :=
  match ev with
  | Ev _ (Fail e) => Some e
  | Ev _ (Ok _) => None
  end.

(** The random source delivers as many bytes as it is asked for. *)
Definition random_source_ok {W : Type} (h : Handler W) : Prop :=
  forall n w buf w1, h _ (RandomBytes n) w = (Ok buf, w1) -> length buf = n.

(** The world after [n] more random bytes were consumed. *)
Definition advance (n : nat) (w : World) : World :=
  mkWorld (entries w) (categories w) (bookmarks w) (entropy w)
          (entropy_used w + n) (fresh_ids w) (ids_used w) (now w) (ai w).

(** The candidate of round [k] (counted from 0) of an allocation that
    starts in [w]: the encoding of the [k]-th block of 8 bytes to come. *)
Definition candidate (w : World) (k : nat) : string :=
  toString_hex (List.map (entropy w) (seq (entropy_used w + 8 * k) 8)).

(** Number of probes of a trace that met a conflict.  A request calls the
    allocator at most once, so 5 conflicts in its trace are an exhausted
    allocation. *)
Definition conflicts (tr : list Event) : nat :=
  length (List.filter snd (probes tr)).

(** ** Invariants of the entry table *)

(** The invariant of one row: public rows have a token, private rows none. *)
Definition share_ok (e : Entry) : Prop :=
  (isPublic e = true -> publicShareId e <> None) /\
  (isPublic e = false -> publicShareId e = None).

Definition share_invariant (m : gmap string Entry) : Prop :=
  forall i e, m !! i = Some e -> share_ok e.

(** No two distinct rows hold the same token. *)
Definition unique_tokens (m : gmap string Entry) : Prop :=
  forall i j e1 e2 token,
    m !! i = Some e1 -> m !! j = Some e2 ->
    publicShareId e1 = Some token -> publicShareId e2 = Some token ->
    i = j.

(** The [id] column of a row is its primary key. *)
Definition ids_are_keys (m : gmap string Entry) : Prop :=
  forall i e, m !! i = Some e -> id e = i.

(** ** What one request does to the table *)

(** Where the token of a row written at key [i] comes from: there is none,
    or it is the one the row had, or it was free in the table. *)
Definition token_origin (m : gmap string Entry) (i : string) (new : Entry) : Prop :=
  publicShareId new = None \/
  (exists old, m !! i = Some old /\ publicShareId new = publicShareId old) \/
  (exists token, publicShareId new = Some token /\ find_by_token m token = None).

(** A write of row [new] at key [i] that respects the invariants of ids
    and tokens, and, under the condition [keeps], the one of sharing. *)
Definition written (keeps : Prop) (m : gmap string Entry) (i : string) (new : Entry)
  : Prop :=
  match m !! i with
  | Some old => id new = id old /\ (keeps -> share_ok old -> share_ok new)
  | None => id new = i /\ share_ok new
  end /\ token_origin m i new.

(** The table after a request: untouched, or one such write. *)
Definition table_step (keeps : Prop) (m m' : gmap string Entry) : Prop :=
  m' = m \/ exists i new, m' = <[i := new]> m /\ written keeps m i new.

(** An [isPublic] other than the object [{ set: false }]. *)
Definition no_set_false (v : option BoolInput) : Prop := v <> Some (SetTo false).

(** The request does not send [{ set: false }] as the [isPublic] of an
    update. *)
Definition plain_write (r : WriteRequest) : Prop :=
  match r with
  | PatchEntry _ _ body => no_set_false (EntryUpdateData.isPublic body)
  | PatchNote _ _ body => no_set_false (NoteUpdateBody.isPublic body)
  | PostEntry _ _ | RestoreEntry _ _ | DeleteEntry _ _ | GenerateNote _ _ => True
  end.

Definition plain (r : Request) : Prop :=
  match r with
  | Read _ => True
  | Write r => plain_write r
  end.

(** What holds of the run of any write request from [w]: the table makes
    one step, the other tables stay, the handler answers, and after 5
    conflicts nothing was written and the answer is a failure. *)
Definition summary (keeps : Prop) (w : World) (res : Outcome Reply * World * list Event)
  : Prop :=
  let '(o, w', tr) := res in
  table_step keeps (entries w) (entries w') /\
  categories w' = categories w /\ bookmarks w' = bookmarks w /\
  (exists r, o = Returned r) /\
  (conflicts tr = MAX_ATTEMPTS ->
   entries w' = entries w /\
   forallb (fun ev => negb (is_entry_write ev)) tr = true /\
   (o = Returned (Next exhausted) \/ exists msg, o = Returned (Respond 500 (JError msg)))).

(** The category of an update, when one is given, exists. *)
Definition category_ok (w : World) (c : option string) : Prop :=
  match c with
  | Some c => is_Some (categories w !! c)
  | None => True
  end.

(** ** Re-publishing *)

(** A write request re-generates the token of entry [i]: whenever it is
    applied to an entry that is public with token [t], the entry ends with
    a token other than [t]. *)
Definition regenerates (r : WriteRequest) (i : string) : Prop :=
  forall (w : World) (old : Entry) (t : string),
    entries w !! i = Some old ->
    isPublic old = true ->
    publicShareId old = Some t ->
    let '(o, w', _) := exec prisma (serve_write r) w in
    (exists body, o = Returned (Respond 200 body)) ->
    exists new t',
      entries w' !! i = Some new /\ publicShareId new = Some t' /\ t' <> t.

(** The policy as worded for both update operations. *)
Definition regenerated_by_both_updates : Prop :=
  (forall user i body,
     EntryUpdateData.isPublic body = Some (Plain true) ->
     regenerates (PatchEntry user i body) i) /\
  (forall user i body,
     NoteUpdateBody.isPublic body = Some (Plain true) ->
     regenerates (PatchNote user i body) i).

(** ** Scenarios *)

(** A world with one entry of user u1 in category c1, a given random
    source and a given time. *)
Definition sample_world (e : Entry) (random : nat -> byte) (time : nat) : World :=
  {| entries := {[ id e := e ]};
     categories := {[ "c1" := mkCategory "c1" "Home" ]};
     bookmarks := [];
     entropy := random;
     entropy_used := 0;
     fresh_ids := fun n => String (ascii_of_nat (97 + n)) "";
     ids_used := 0;
     now := time;
     ai := fun _ => Ok "# Title" |}.

(** Zero bytes only. *)
Definition zeros : nat -> byte := fun _ => x00.

(** Eight zero bytes, then bytes 255. *)
Definition zeros_then_ones : nat -> byte :=
  fun n => if (n <? 8)%nat then x00 else xff.

(** An entry shared under the token abc123, and requests to share it again. *)
Definition shared_entry : Entry :=
  {| id := "e1"; title := "Groceries"; synopsis := "list"; content := "milk";
     userId := "u1"; categoryId := "c1"; pinned := false;
     isPublic := true; publicShareId := Some "abc123"; isDeleted := false;
     createdAt := 1; updatedAt := 1 |}.

Definition shared_world : World := sample_world shared_entry zeros_then_ones 2.

Definition reshare_note : NoteUpdateBody.t :=
  NoteUpdateBody.mk None None None None (Some (Plain true)).

Definition reshare_entry : EntryUpdateData.t :=
  EntryUpdateData.mk None None None None None (Some (Plain true)).

(** A store in which the token of sixteen zeros is taken.  With a random
    source of zeros every candidate collides; with eight zeros followed by
    bytes 255 the first candidate collides and the second is free. *)
Definition taken_entry : Entry :=
  {| id := "e0"; title := "Old"; synopsis := "old"; content := "text";
     userId := "u1"; categoryId := "c1"; pinned := false;
     isPublic := true; publicShareId := Some "0000000000000000"; isDeleted := false;
     createdAt := 0; updatedAt := 0 |}.

Definition colliding_world : World := sample_world taken_entry zeros 1.

Definition one_collision_world : World := sample_world taken_entry zeros_then_ones 1.

(** A store with nothing in it. *)
Definition empty_world : World :=
  {| entries := ∅; categories := ∅; bookmarks := [];
     entropy := fun _ => x2a; entropy_used := 0;
     fresh_ids := fun _ => "a"; ids_used := 0; now := 0;
     ai := fun _ => Ok "" |}.

Definition public_post : EntryCreationData.t :=
  EntryCreationData.mk (Some "T") (Some "S") (Some "C") (Some "c1") None (Some true).

Definition unshare_entry : EntryUpdateData.t :=
  EntryUpdateData.mk None None None None None (Some (Plain false)).

(** A session on the shared entry: unshare it, create a public entry,
    delete and restore the first one, list, then share it again through
    the notes route. *)
Definition session : list Request :=
  [ Write (PatchEntry "u1" "e1" unshare_entry);
    Write (PostEntry "u1" public_post);
    Write (DeleteEntry "u1" "e1");
    Write (RestoreEntry "u1" "e1");
    Read (GetEntries "u1");
    Write (PatchNote "u1" "e1" reshare_note) ].

(** A soft-deleted entry, and requests to change its title. *)
Definition trashed_entry : Entry :=
  {| id := "e2"; title := "Draft"; synopsis := "draft"; content := "text";
     userId := "u1"; categoryId := "c1"; pinned := false;
     isPublic := false; publicShareId := None; isDeleted := true;
     createdAt := 1; updatedAt := 3 |}.

Definition trash_world : World := sample_world trashed_entry zeros 4.




(** A request to unshare the entry that sends [{ set: false }]. *)
Definition unshare_by_object : EntryUpdateData.t :=
  EntryUpdateData.mk None None None None None (Some (SetTo false)).

(** The notes update reads the row, then the entries update runs from its
    read to its write, then the notes update goes on. *)
Definition read_then_overtaken : list bool := [true; false; false].

(** ** The sharing invariant as worded *)

(** The claim as worded, of one request: whatever a mutating request
    sends, the invariant holds of every row after it if it did before. *)
Definition mutations_keep_share_invariant : Prop :=
  forall (w : World) (r : WriteRequest),
    share_invariant (entries w) ->
    share_invariant (entries (exec prisma (serve_write r) w).1.2).

(** The same of two requests in flight together, which send booleans. *)
Definition mutations_in_flight_keep_share_invariant : Prop :=
  forall (w : World) (schedule : list bool) (r1 r2 : WriteRequest),
    plain_write r1 -> plain_write r2 ->
    share_invariant (entries w) ->
    share_invariant
      (entries (interleave prisma schedule (serve_write r1) (serve_write r2) w).2).

(** ** Updating a soft-deleted entry *)


(** * Vocabulary of the further properties *)

(** ** Calls a program may make *)

(** Every call the program makes, whatever the answers, is one of [P], and
    the program does not run out of fuel. *)
Inductive makes_only (P : forall X, Op X -> bool) : forall A, Prog A -> Prop :=
| only_ret A (a : A) : makes_only P A (Ret a)
| only_throw A (e : Error) : makes_only P A (Throw e)
| only_call A X (op : Op X) (k : Result X -> Prog A) :
    P X op = true -> (forall r, makes_only P A (k r)) -> makes_only P A (Call op k).
Arguments makes_only P {A} p.

(** Whatever the answers, the program ends by returning. *)
Inductive answers : forall A, Prog A -> Prop :=
| answers_ret A (a : A) : answers A (Ret a)
| answers_call A X (op : Op X) (k : Result X -> Prog A) :
    (forall r, answers A (k r)) -> answers A (Call op k).
Arguments answers {A} p.

Definition event_ok (P : forall X, Op X -> bool) (ev : Event) : bool :=
  match ev with Ev op _ => P _ op end.

Definition any_call : forall X, Op X -> bool := fun _ _ => true.

(** Lookups by id, by filter, and of bookmarks. *)
Definition is_read_call (X : Type) (op : Op X) : bool :=
  match op with
  | EntryFindUnique (ById _) _ | EntryFindFirst _ _ | EntryFindMany _ _ _
  | BookmarkFindMany _ => true
  | _ => false
  end.

(** The note service, the allocator's draws and probes, and the create. *)
Definition is_generate_call (X : Type) (op : Op X) : bool :=
  match op with
  | GenerateFullNote _ | RandomBytes _ | EntryFindUnique (ByPublicShareId _) _
  | EntryCreate _ _ => true
  | _ => false
  end.

(** ** Who asks, and for which entry *)

Definition requester (r : WriteRequest) : option string :=
  match r with
  | PostEntry user _ | PatchEntry user _ _ | RestoreEntry user _
  | DeleteEntry user _ | PatchNote user _ _ => Some user
  | GenerateNote user _ => user
  end.

Definition target (r : WriteRequest) : option string :=
  match r with
  | PatchEntry _ i _ | RestoreEntry _ i | DeleteEntry _ i | PatchNote _ i _ => Some i
  | PostEntry _ _ | GenerateNote _ _ => None
  end.

(** What a write request may do to the entry table: nothing, or write one
    row; a row that was there is the request's target, belongs to the
    requester and keeps its id, owner and creation time; a new row belongs
    to the requester. *)
Definition write_effect (r : WriteRequest) (m m' : gmap string Entry) : Prop :=
  m' = m \/
  exists i new,
    m' = <[i := new]> m /\
    match m !! i with
    | Some old =>
        target r = Some i /\ requester r = Some (userId old) /\
        id new = id old /\ userId new = userId old /\ createdAt new = createdAt old
    | None => target r = None /\ requester r = Some (userId new)
    end.

(** The store after an update of row [i] to [e]. *)
Definition after_update (i : string) (e : Entry) (w : World) : World :=
  mkWorld (<[i := e]> (entries w)) (categories w) (bookmarks w) (entropy w)
          (entropy_used w) (fresh_ids w) (ids_used w) (S (now w)) (ai w).

(** The row after [update({ data: { isDeleted: b } })] at time [t]. *)
Definition set_deleted (b : bool) (t : nat) (e : Entry) : Entry :=
  update_row t (UpdateData.set_isDeleted b UpdateData.empty) e.

(** ** Orders of the listings *)

(** [orderBy: [{ pinned: "desc" }, { createdAt: "desc" }]] *)
Definition listed_before (a b : Entry) : Prop :=
  (pinned a = true /\ pinned b = false) \/
  (pinned a = pinned b /\ createdAt b <= createdAt a).

(** [orderBy: { createdAt: "desc" }] *)
Definition newer_first (a b : Entry) : Prop := createdAt b <= createdAt a.

(** ** Strings *)

(** The value of a hexadecimal digit in lower case. *)
Definition hex_value (c : ascii) : N :=
  let n := N_of_ascii c in
  (if n <? 58 then n - 48 else n - 87)%N.

(** The bytes that a string of hexadecimal digits stands for, two digits
    to a byte, the high one first. *)
Fixpoint decode_hex (s : string) : option (list byte) :=
  match s with
  | EmptyString => Some []
  | String hi (String lo rest) =>
      match Byte.of_N (16 * hex_value hi + hex_value lo), decode_hex rest with
      | Some b, Some l => Some (b :: l)
      | _, _ => None
      end
  | String _ EmptyString => None
  end.

(** The buffers that [crypto.randomBytes] delivered during a run. *)
Definition draw_of (ev : Event) : option (list byte) :=
  match ev with
  | Ev (RandomBytes _) (Ok buf) => Some buf
  | Ev _ _ => None
  end.

Definition draws (tr : list Event) : list (list byte) := omap draw_of tr.

Definition chars (s : string) : list ascii := list_ascii_of_string s.

(** ** Further stores and requests *)

(** A request to create an entry without a title. *)
Definition untitled_post : EntryCreationData.t :=
  EntryCreationData.mk None (Some "S") (Some "C") (Some "c1") None None.

(** A request to create an entry in a category that does not exist. *)
Definition orphan_post : EntryCreationData.t :=
  EntryCreationData.mk (Some "T") (Some "S") (Some "C") (Some "c9") None None.

(** The store of the shared entry, which user u2 has bookmarked. *)
Definition reader_world : World :=
  {| entries := entries shared_world;
     categories := categories shared_world;
     bookmarks := [mkBookmark "u2" "e1"];
     entropy := zeros_then_ones;
     entropy_used := 0;
     fresh_ids := fresh_ids shared_world;
     ids_used := 0;
     now := 2;
     ai := ai shared_world |}.

(** Requests to generate a note: only to read it, to save it as a public
    entry of category c1, and to save it in a category that does not exist. *)
Definition draft_body : GenerateBody.t :=
  GenerateBody.mk (Some "Tea") None None None None None None None.

Definition save_body : GenerateBody.t :=
  GenerateBody.mk None None None None None (Some true) (Some "c1") (Some true).

Definition orphan_body : GenerateBody.t :=
  GenerateBody.mk None None None None None (Some true) (Some "c9") None.

(** A request to save a generated note under an empty categoryId. *)
Definition unfiled_body : GenerateBody.t :=
  GenerateBody.mk None None None None None (Some true) (Some EmptyString) None.

(** * Properties *)

(** ** Running composite programs *)

Section Exec.
Context {W : Type} (h : Handler W).

Lemma exec_bind {A B} (p : Prog A) (f : A -> Prog B) (w : W) :
  exec h (bind p f) w =
    let '(o, w1, t1) := exec h p w in
    match o with
    | Returned a => let '(o2, w2, t2) := exec h (f a) w1 in (o2, w2, t1 ++ t2)
    | Thrown e => (Thrown e, w1, t1)
    | Unfinished => (Unfinished, w1, t1)
    end.
Proof.
  revert w. induction p as [a|e| |X op k IH]; intros w; simpl.
  - destruct (exec h (f a) w) as [[o2 w2] t2]. reflexivity.
  - reflexivity.
  - reflexivity.
  - destruct (h X op w) as [r w1]. rewrite IH.
    destruct (exec h (k r) w1) as [[o w2] t1].
    destruct o as [a|e|]; try reflexivity.
    destruct (exec h (f a) w2) as [[o2 w3] t2]. reflexivity.
Qed.

Lemma exec_try_catch {A} (p : Prog A) (handler : Error -> Prog A) (w : W) :
  exec h (try_catch p handler) w =
    let '(o, w1, t1) := exec h p w in
    match o with
    | Thrown e => let '(o2, w2, t2) := exec h (handler e) w1 in (o2, w2, t1 ++ t2)
    | _ => (o, w1, t1)
    end.
Proof.
  revert w. induction p as [a|e| |X op k IH]; intros w; simpl.
  - reflexivity.
  - destruct (exec h (handler e) w) as [[o2 w2] t2]. reflexivity.
  - reflexivity.
  - destruct (h X op w) as [r w1]. rewrite IH.
    destruct (exec h (k r) w1) as [[o w2] t1].
    destruct o as [a|e|]; try reflexivity.
    destruct (exec h (handler e) w2) as [[o2 w3] t2]. reflexivity.
Qed.

Lemma exec_await {X} (op : Op X) (w : W) :
  exec h (await op) w =
    match h X op w with
    | (Ok x, w1) => (Returned x, w1, [Ev op (Ok x)])
    | (Fail e, w1) => (Thrown e, w1, [Ev op (Fail e)])
    end.
Proof.
  unfold await. simpl. destruct (h X op w) as [[x|e] w1]; reflexivity.
Qed.

End Exec.

Lemma probes_app (t1 t2 : list Event) : probes (t1 ++ t2) = probes t1 ++ probes t2.
Proof. unfold probes. apply omap_app. Qed.

(** ** The allocator against any behaviour of its collaborators *)

Section Allocator.
Context {W : Type} (h : Handler W).

Local Abbreviation draw := (RandomBytes 8).
Local Abbreviation probe c := (EntryFindUnique (ByPublicShareId c) false).

(** One evaluation of the loop condition and body. *)
Lemma while_attempts_step (fuel attempts : nat) (w : W) :
  attempts < MAX_ATTEMPTS ->
  exec h (while_attempts (S fuel) attempts) w =
    match h _ draw w with
    | (Fail e, w1) => (Thrown e, w1, [Ev draw (Fail e)])
    | (Ok buf, w1) =>
        let c := toString_hex buf in
        match h _ (probe c) w1 with
        | (Fail e, w2) => (Thrown e, w2, [Ev draw (Ok buf); Ev (probe c) (Fail e)])
        | (Ok None, w2) => (Returned c, w2, [Ev draw (Ok buf); Ev (probe c) (Ok None)])
        | (Ok (Some x), w2) =>
            let '(o, w3, tr) := exec h (while_attempts fuel (attempts + 1)) w2 in
            (o, w3, Ev draw (Ok buf) :: Ev (probe c) (Ok (Some x)) :: tr)
        end
    end.
Proof.
  intros Hlt. cbn [while_attempts].
  apply Nat.ltb_lt in Hlt. rewrite Hlt.
  cbn -[while_attempts]. destruct (h _ (RandomBytes 8) w) as [[buf|e] w1]; cbn -[while_attempts]; [|reflexivity].
  destruct (h _ (EntryFindUnique (ByPublicShareId (toString_hex buf)) false) w1)
    as [[[x|]|e] w2]; cbn -[while_attempts]; try reflexivity.
  destruct (exec h (while_attempts fuel (attempts + 1)) w2) as [[o w3] tr].
  reflexivity.
Qed.

Lemma while_attempts_done (fuel attempts : nat) (w : W) :
  MAX_ATTEMPTS <= attempts ->
  exec h (while_attempts (S fuel) attempts) w = (Thrown exhausted, w, []).
Proof.
  intros Hge. cbn [while_attempts].
  apply Nat.ltb_ge in Hge. rewrite Hge. reflexivity.
Qed.

Lemma exec_attempt (w : W) :
  exec h attempt w =
    match h _ draw w with
    | (Fail e, w1) => (Thrown e, w1, [Ev draw (Fail e)])
    | (Ok buf, w1) =>
        let c := toString_hex buf in
        match h _ (probe c) w1 with
        | (Fail e, w2) => (Thrown e, w2, [Ev draw (Ok buf); Ev (probe c) (Fail e)])
        | (Ok x, w2) =>
            (Returned (c, bool_decide (is_Some x)), w2,
             [Ev draw (Ok buf); Ev (probe c) (Ok x)])
        end
    end.
Proof.
  cbn.
  destruct (h _ (RandomBytes 8) w) as [[buf|e] w1]; cbn; [|reflexivity].
  destruct (h _ (EntryFindUnique (ByPublicShareId (toString_hex buf)) false) w1)
    as [[x|e] w2]; cbn; reflexivity.
Qed.

Ltac arith := unfold MAX_ATTEMPTS in *; lia.

(** Case analysis on one round. *)
Ltac round w :=
  let buf := fresh "buf" in
  let e := fresh "e" in
  let w1 := fresh "w" in
  let w2 := fresh "w" in
  let x := fresh "x" in
  destruct (h _ draw w) as [[buf|e] w1];
  [ cbn zeta in *;
    destruct (h _ (probe (toString_hex buf)) w1) as [[[x|]|e] w2]
  | ].

Lemma while_attempts_probes (fuel a : nat) (w : W) :
  length (probes (exec h (while_attempts fuel a) w).2) <= MAX_ATTEMPTS - a.
Proof.
  revert a w. induction fuel as [|fuel IH]; intros a w; [cbn; arith|].
  destruct (decide (a < MAX_ATTEMPTS)) as [Hlt|Hge].
  - rewrite while_attempts_step by done. round w; cbn; try arith.
    specialize (IH (a + 1) w1).
    destruct (exec h (while_attempts fuel (a + 1)) w1) as [[o w3] tr].
    cbn in *. arith.
  - rewrite while_attempts_done by arith. cbn. arith.
Qed.

Lemma while_attempts_finishes (fuel a : nat) (w : W) :
  MAX_ATTEMPTS - a < fuel ->
  (exec h (while_attempts fuel a) w).1.1 <> Unfinished.
Proof.
  revert a w. induction fuel as [|fuel IH]; intros a w Hfuel; [arith|].
  destruct (decide (a < MAX_ATTEMPTS)) as [Hlt|Hge].
  - rewrite while_attempts_step by done. round w; cbn; try done.
    specialize (IH (a + 1) w1 ltac:(arith)).
    destruct (exec h (while_attempts fuel (a + 1)) w1) as [[o w3] tr].
    exact IH.
  - rewrite while_attempts_done by arith. done.
Qed.

Lemma while_attempts_fuel (fuel fuel' a : nat) (w : W) :
  MAX_ATTEMPTS - a < fuel -> MAX_ATTEMPTS - a < fuel' ->
  exec h (while_attempts fuel a) w = exec h (while_attempts fuel' a) w.
Proof.
  revert fuel' a w. induction fuel as [|fuel IH]; intros fuel' a w H1 H2; [arith|].
  destruct fuel' as [|fuel']; [arith|].
  destruct (decide (a < MAX_ATTEMPTS)) as [Hlt|Hge].
  - rewrite !while_attempts_step by done. round w; try reflexivity.
    rewrite (IH fuel' (a + 1) w1) by arith. reflexivity.
  - rewrite !while_attempts_done by arith. reflexivity.
Qed.

Lemma while_attempts_calls (fuel a : nat) (w : W) :
  forallb is_allocator_call (exec h (while_attempts fuel a) w).2 = true.
Proof.
  revert a w. induction fuel as [|fuel IH]; intros a w; [reflexivity|].
  destruct (decide (a < MAX_ATTEMPTS)) as [Hlt|Hge].
  - rewrite while_attempts_step by done. round w; try reflexivity.
    specialize (IH (a + 1) w1).
    destruct (exec h (while_attempts fuel (a + 1)) w1) as [[o w3] tr].
    exact IH.
  - rewrite while_attempts_done by arith. reflexivity.
Qed.

(** The loop returns the first candidate that the store reports free. *)
Lemma while_attempts_returns (k fuel a : nat) (w w' : W) (l : list (string * bool)) :
  1 <= k -> a + k <= MAX_ATTEMPTS -> k <= fuel ->
  attempts h k w = (l, w') ->
  l.*2 = replicate (k - 1) true ++ [false] ->
  exists c tr,
    last l = Some (c, false) /\
    exec h (while_attempts fuel a) w = (Returned c, w', tr) /\
    probes tr = l.
Proof.
  revert fuel a w l. induction k as [|k IH]; intros fuel a w l Hk Ha Hfuel Hl Hans; [arith|].
  destruct fuel as [|fuel]; [arith|].
  rewrite while_attempts_step by arith.
  cbn [attempts] in Hl. rewrite exec_attempt in Hl.
  round w.
  - (* conflict: the loop goes on *)
    destruct (attempts h k w1) as [l1 w3] eqn:Hrest.
    injection Hl as <- <-.
    replace (S k - 1) with k in Hans by arith.
    destruct k as [|k]; cbn in Hans; [discriminate|].
    injection Hans as Hans.
    destruct (IH fuel (a + 1) w1 l1) as (c & tr & Hlast & Hexec & Hprobes);
      [arith|arith|arith|done| |].
    { replace (S k - 1) with k by arith. exact Hans. }
    rewrite Hexec.
    exists c, (Ev draw (Ok buf) :: Ev (probe (toString_hex buf)) (Ok (Some x)) :: tr).
    split; [|split; [reflexivity|]].
    + destruct l1; [discriminate|]. exact Hlast.
    + cbn. f_equal. exact Hprobes.
  - (* free: the loop returns *)
    destruct (attempts h k w1) as [l1 w3] eqn:Hrest.
    injection Hl as <- <-.
    replace (S k - 1) with k in Hans by arith.
    destruct k as [|k]; cbn in Hans; [|discriminate].
    cbn in Hrest. injection Hrest as <- <-.
    eexists _, _. split; [reflexivity|]. split; reflexivity.
  - injection Hl as <- <-. destruct k; discriminate.
  - injection Hl as <- <-. destruct k; discriminate.
Qed.

(** The loop throws once every candidate of the remaining rounds is bound. *)
Lemma while_attempts_exhausts (n fuel a : nat) (w w' : W) (l : list (string * bool)) :
  a + n = MAX_ATTEMPTS -> n < fuel ->
  attempts h n w = (l, w') ->
  l.*2 = replicate n true ->
  exists tr,
    exec h (while_attempts fuel a) w = (Thrown exhausted, w', tr) /\
    probes tr = l.
Proof.
  revert fuel a w l. induction n as [|n IH]; intros fuel a w l Ha Hfuel Hl Hans.
  - destruct fuel as [|fuel]; [arith|].
    rewrite while_attempts_done by arith. cbn in Hl. injection Hl as <- <-.
    exists []. done.
  - destruct fuel as [|fuel]; [arith|].
    rewrite while_attempts_step by arith.
    cbn [attempts] in Hl. rewrite exec_attempt in Hl.
    round w.
    + destruct (attempts h n w1) as [l1 w3] eqn:Hrest.
      injection Hl as <- <-. cbn in Hans. injection Hans as Hans.
      destruct (IH fuel (a + 1) w1 l1) as (tr & Hexec & Hprobes); [arith|arith|done|done|].
      rewrite Hexec. eexists. split; [reflexivity|]. cbn. f_equal. exact Hprobes.
    + destruct (attempts h n w1) as [l1 w3]. injection Hl as <- <-. discriminate.
    + injection Hl as <- <-. discriminate.
    + injection Hl as <- <-. discriminate.
Qed.

(** Why the loop throws: every round met a conflict, or a call failed. *)
Lemma while_attempts_thrown (fuel a : nat) (w w' : W) (e : Error) (tr : list Event) :
  exec h (while_attempts fuel a) w = (Thrown e, w', tr) ->
  (e = exhausted /\ (probes tr).*2 = replicate (MAX_ATTEMPTS - a) true) \/
  last tr ≫= rejected = Some e.
Proof.
  revert a w tr. induction fuel as [|fuel IH]; intros a w tr; [discriminate|].
  destruct (decide (a < MAX_ATTEMPTS)) as [Hlt|Hge].
  - rewrite while_attempts_step by done. round w; intros Hexec.
    + destruct (exec h (while_attempts fuel (a + 1)) w1) as [[o w3] tr1] eqn:Hrest.
      injection Hexec as -> -> <-.
      destruct (IH _ _ _ Hrest) as [[-> Hall]|Hrej].
      * left. split; [done|].
        replace (MAX_ATTEMPTS - a) with (S (MAX_ATTEMPTS - (a + 1))) by arith.
        change (true :: (probes tr1).*2 = true :: replicate (MAX_ATTEMPTS - (a + 1)) true).
        by rewrite Hall.
      * right. destruct tr1 as [|ev tr1]; [discriminate|].
        rewrite !last_cons_cons. exact Hrej.
    + discriminate.
    + injection Hexec as <- <- <-. right. reflexivity.
    + injection Hexec as <- <- <-. right. reflexivity.
  - rewrite while_attempts_done by arith. intros [= <- <- <-].
    left. split; [done|]. replace (MAX_ATTEMPTS - a) with 0 by arith. done.
Qed.

End Allocator.

(** ** Shape of a token *)

Lemma hex_digit_is_hex (n : N) : is_hex_char (hex_digit n) = true.
Proof.
  destruct n as [|p]; [reflexivity|].
  do 5 (destruct p as [p|p|]; try reflexivity).
Qed.

Lemma toString_hex_length (buf : list byte) :
  String.length (toString_hex buf) = 2 * length buf.
Proof.
  induction buf as [|b buf IH]; [reflexivity|].
  cbn [toString_hex String.length length]. rewrite IH. lia.
Qed.

Lemma toString_hex_all_hex (buf : list byte) : all_hex (toString_hex buf) = true.
Proof.
  induction buf as [|b buf IH]; [reflexivity|].
  cbn [toString_hex all_hex]. rewrite !hex_digit_is_hex, IH. reflexivity.
Qed.

Lemma toString_hex_token (buf : list byte) :
  length buf = 8 -> is_share_token (toString_hex buf).
Proof.
  intros Hlen. split.
  - rewrite toString_hex_length, Hlen. reflexivity.
  - apply toString_hex_all_hex.
Qed.

Lemma hex_byte_decodes (b : byte) :
  Byte.of_N (16 * hex_value (hex_digit (Byte.to_N b / 16))
             + hex_value (hex_digit (Byte.to_N b mod 16))) = Some b.
Proof. destruct b; reflexivity. Qed.

Lemma decode_hex_toString_hex (buf : list byte) :
  decode_hex (toString_hex buf) = Some buf.
Proof.
  induction buf as [|b buf IH]; [reflexivity|].
  cbn [toString_hex decode_hex]. by rewrite hex_byte_decodes, IH.
Qed.

(** A token that the loop returns encodes the buffer drawn last, and every
    candidate probed encodes the buffer drawn for it. *)
Lemma while_attempts_encodes {W} (h : Handler W) (fuel a : nat) (w w' : W) c tr :
  random_source_ok h ->
  exec h (while_attempts fuel a) w = (Returned c, w', tr) ->
  (probes tr).*1 = toString_hex <$> draws tr /\
  exists buf, last (draws tr) = Some buf /\ length buf = 8 /\ c = toString_hex buf.
Proof.
  intros Hlen. revert a w tr. induction fuel as [|fuel IH]; intros a w tr; [discriminate|].
  destruct (decide (a < MAX_ATTEMPTS)) as [Hlt|Hge].
  - rewrite while_attempts_step by done.
    destruct (h _ (RandomBytes 8) w) as [[buf|e] w1] eqn:Hdraw; [|discriminate].
    cbn zeta.
    destruct (h _ (EntryFindUnique (ByPublicShareId (toString_hex buf)) false) w1)
      as [[[x|]|e] w2]; try discriminate.
    + destruct (exec h (while_attempts fuel (a + 1)) w2) as [[o w3] tr1] eqn:Hrest.
      intros [= -> -> <-].
      destruct (IH _ _ _ Hrest) as (Hp & buf' & Hlast & Hbuf & Hc).
      change (probes (_ :: _ :: tr1)) with ((toString_hex buf, true) :: probes tr1).
      change (draws (_ :: _ :: tr1)) with (buf :: draws tr1).
      split; [cbn; by rewrite Hp|].
      exists buf'. split; [|done].
      destruct (draws tr1); [discriminate|]. exact Hlast.
    + intros [= <- <- <-]. split; [reflexivity|].
      exists buf. split; [reflexivity|]. split; [|reflexivity]. eapply Hlen, Hdraw.
  - rewrite while_attempts_done by lia. discriminate.
Qed.

Lemma while_attempts_token {W} (h : Handler W) (fuel a : nat) (w w' : W) c tr :
  random_source_ok h ->
  exec h (while_attempts fuel a) w = (Returned c, w', tr) ->
  is_share_token c.
Proof.
  intros Hlen. revert a w tr. induction fuel as [|fuel IH]; intros a w tr; [discriminate|].
  destruct (decide (a < MAX_ATTEMPTS)) as [Hlt|Hge].
  - rewrite while_attempts_step by done.
    destruct (h _ (RandomBytes 8) w) as [[buf|e] w1] eqn:Hdraw; [|discriminate].
    cbn zeta.
    destruct (h _ (EntryFindUnique (ByPublicShareId (toString_hex buf)) false) w1)
      as [[[x|]|e] w2]; try discriminate.
    + destruct (exec h (while_attempts fuel (a + 1)) w2) as [[o w3] tr1] eqn:Hrest.
      intros [= -> -> <-]. eapply IH, Hrest.
    + intros [= <- <- <-]. apply toString_hex_token. eapply Hlen, Hdraw.
  - rewrite while_attempts_done by lia. discriminate.
Qed.

(** ** The allocator: bound, exhaustion and result *)

(** C3. Whatever the store's existence check and the other collaborators
    answer, one call of the allocator makes at most 5 existence probes, and
    its loop ends: with the fuel of [generateUniqueShareId] the run is
    never cut short, and more fuel changes nothing. *)
Theorem allocator_bounded {W : Type} (h : Handler W) (w : W) :
  length (probes (exec h generateUniqueShareId w).2) <= 5 /\
  (exec h generateUniqueShareId w).1.1 <> Unfinished /\
  forall extra : nat,
    exec h (while_attempts (S MAX_ATTEMPTS + extra) 0) w = exec h generateUniqueShareId w.
Proof.
  split; [|split].
  - apply (while_attempts_probes h (S MAX_ATTEMPTS) 0 w).
  - apply while_attempts_finishes. unfold MAX_ATTEMPTS. lia.
  - intros extra. apply while_attempts_fuel; unfold MAX_ATTEMPTS; lia.
Qed.

(** C4. If the store reports a conflict for each of the 5 candidates drawn
    in a row, the allocator throws the exhaustion error after exactly these
    5 probes (there is no sixth), and a caller that awaits the allocator
    throws the same error without running its continuation.  Besides an
    error raised by a collaborator's call itself, exhaustion is the only
    way the allocator fails. *)
Theorem allocator_exhaustion {W : Type} (h : Handler W) (w : W) :
  (forall (l : list (string * bool)) (w' : W),
     attempts h MAX_ATTEMPTS w = (l, w') ->
     l.*2 = replicate MAX_ATTEMPTS true ->
     exists tr,
       exec h generateUniqueShareId w = (Thrown exhausted, w', tr) /\
       probes tr = l /\ length (probes tr) = 5 /\
       forall (B : Type) (k : string -> Prog B),
         exec h (t <- generateUniqueShareId ;; k t) w = (Thrown exhausted, w', tr)) /\
  (forall (e : Error) (w' : W) (tr : list Event),
     exec h generateUniqueShareId w = (Thrown e, w', tr) ->
     (e = exhausted /\ (probes tr).*2 = replicate MAX_ATTEMPTS true) \/
     last tr ≫= rejected = Some e).
Proof.
  split.
  - intros l w' Hl Hans.
    destruct (while_attempts_exhausts h MAX_ATTEMPTS (S MAX_ATTEMPTS) 0 w w' l)
      as (tr & Hexec & Hprobes); [done|lia|done|done|].
    exists tr. split; [exact Hexec|]. split; [exact Hprobes|]. split.
    + rewrite Hprobes. rewrite <- (length_fmap snd), Hans. apply length_replicate.
    + intros B k. rewrite exec_bind. fold generateUniqueShareId in Hexec.
      unfold generateUniqueShareId in *. rewrite Hexec. reflexivity.
  - intros e w' tr Hexec.
    apply (while_attempts_thrown h (S MAX_ATTEMPTS) 0 w w' e tr Hexec).
Qed.

(** C5. For 1 <= k <= 5: if the store reports a conflict for the first
    k-1 candidates drawn and none for the k-th, the allocator makes exactly
    these k probes and returns the k-th candidate; and, the random source
    delivering the 8 bytes asked for, every token the allocator returns is
    a string of 16 hexadecimal characters, namely the encoding of the 8
    bytes drawn last, two digits to a byte, from which the bytes can be
    read back; every candidate probed is the encoding of the bytes drawn
    for it. *)
Theorem allocator_returns_kth {W : Type} (h : Handler W) (w w' : W)
    (k : nat) (l : list (string * bool)) :
  random_source_ok h ->
  1 <= k <= 5 ->
  attempts h k w = (l, w') ->
  l.*2 = replicate (k - 1) true ++ [false] ->
  (exists c tr,
     l !! (k - 1) = Some (c, false) /\
     exec h generateUniqueShareId w = (Returned c, w', tr) /\
     probes tr = l /\ length (probes tr) = k /\
     is_share_token c) /\
  (forall w0 c w1 tr,
     exec h generateUniqueShareId w0 = (Returned c, w1, tr) ->
     is_share_token c /\
     (probes tr).*1 = toString_hex <$> draws tr /\
     exists buf,
       last (draws tr) = Some buf /\ length buf = 8 /\
       c = toString_hex buf /\ decode_hex c = Some buf).
Proof.
  intros Hrandom Hk Hl Hans.
  assert (Htoken : forall w0 c w1 tr,
    exec h generateUniqueShareId w0 = (Returned c, w1, tr) -> is_share_token c).
  { intros w0 c w1 tr Hexec. eapply while_attempts_token; [exact Hrandom|exact Hexec]. }
  split.
  2: { intros w0 c w1 tr Hexec. split; [by eapply Htoken|].
       destruct (while_attempts_encodes h _ _ _ _ _ _ Hrandom Hexec)
         as (Hp & buf & Hlast & Hbuf & ->).
       split; [exact Hp|]. exists buf. repeat (split; [done|]).
       apply decode_hex_toString_hex. }
  destruct (while_attempts_returns h k (S MAX_ATTEMPTS) 0 w w' l)
    as (c & tr & Hlast & Hexec & Hprobes); [lia|unfold MAX_ATTEMPTS; lia|unfold MAX_ATTEMPTS; lia|done|done|].
  assert (Hlen : length l = k).
  { rewrite <- (length_fmap snd), Hans, length_app, length_replicate. cbn. lia. }
  exists c, tr. split; [|split; [exact Hexec|split; [exact Hprobes|split]]].
  - rewrite last_lookup in Hlast. rewrite Hlen in Hlast.
    replace (k - 1) with (pred k) by lia. exact Hlast.
  - rewrite Hprobes. exact Hlen.
  - eapply Htoken, Hexec.
Qed.

(** ** The allocator against the reference store *)

Lemma advance_advance (n m : nat) (w : World) :
  advance m (advance n w) = advance (n + m) w.
Proof. unfold advance. cbn. f_equal. lia. Qed.

Lemma advance_0 (w : World) : advance 0 w = w.
Proof. destruct w. unfold advance. cbn. f_equal. lia. Qed.

Lemma prisma_random_source_ok : random_source_ok prisma.
Proof.
  intros n w buf w1 [= <- _]. rewrite length_map. apply length_seq.
Qed.

Lemma find_by_token_None (m : gmap string Entry) (token : string) :
  find_by_token m token = None <->
  forall i e, m !! i = Some e -> publicShareId e <> Some token.
Proof.
  unfold find_by_token, rows. split.
  - intros Hnone i e Hie Htok.
    assert (Hin : In e (map_to_list m).*2).
    { apply list_elem_of_In, list_elem_of_fmap. exists (i, e). split; [done|].
      by apply elem_of_map_to_list. }
    apply (find_none _ _ Hnone) in Hin.
    by apply bool_decide_eq_false in Hin.
  - intros Hfree.
    destruct (find _ _) as [e|] eqn:Hfind; [|done].
    apply find_some in Hfind as [Hin Htok].
    apply list_elem_of_In, list_elem_of_fmap in Hin as ([i e'] & -> & Hin).
    apply elem_of_map_to_list in Hin.
    apply bool_decide_eq_true in Htok. by destruct (Hfree i e' Hin).
Qed.

Lemma find_by_token_Some (m : gmap string Entry) (token : string) (e : Entry) :
  find_by_token m token = Some e ->
  exists i, m !! i = Some e /\ publicShareId e = Some token.
Proof.
  unfold find_by_token, rows. intros Hfind.
  apply find_some in Hfind as [Hin Htok].
  apply list_elem_of_In, list_elem_of_fmap in Hin as ([i e'] & -> & Hin).
  apply elem_of_map_to_list in Hin.
  apply bool_decide_eq_true in Htok. eauto.
Qed.

Lemma conflicts_app (t1 t2 : list Event) :
  conflicts (t1 ++ t2) = conflicts t1 + conflicts t2.
Proof.
  unfold conflicts. rewrite probes_app, List.filter_app. apply length_app.
Qed.

(** What a run of the loop against the reference store amounts to. *)
Lemma prisma_while_attempts (fuel a : nat) (w w' : World) (o : Outcome string)
    (tr : list Event) :
  exec prisma (while_attempts fuel a) w = (o, w', tr) ->
  (exists n, w' = advance n w) /\
  forallb is_allocator_call tr = true /\
  match o with
  | Returned c =>
      find_by_token (entries w) c = None /\ is_share_token c /\
      conflicts tr < MAX_ATTEMPTS - a /\
      c = candidate w (conflicts tr)
  | Thrown e => e = exhausted /\ conflicts tr = MAX_ATTEMPTS - a
  | Unfinished => fuel <= MAX_ATTEMPTS - a
  end.
Proof.
  revert a w w' o tr. induction fuel as [|fuel IH]; intros a w w' o tr.
  { intros [= <- <- <-]. split; [exists 0; by rewrite advance_0|].
    split; [done|]. lia. }
  destruct (decide (a < MAX_ATTEMPTS)) as [Hlt|Hge].
  - rewrite while_attempts_step by done. cbn [prisma]. cbn zeta.
    change (entries (mkWorld (entries w) _ _ _ _ _ _ _ _)) with (entries w).
    change (mkWorld (entries w) (categories w) (bookmarks w) (entropy w)
              (entropy_used w + 8) (fresh_ids w) (ids_used w) (now w) (ai w))
      with (advance 8 w).
    set (buf := List.map (entropy w) (seq (entropy_used w) 8)).
    destruct (find_by_token (entries w) (toString_hex buf)) as [x|] eqn:Hfind; cbn [fmap option_fmap option_map].
    + destruct (exec prisma (while_attempts fuel (a + 1)) (advance 8 w))
        as [[o1 w1] tr1] eqn:Hrest.
      intros [= <- <- <-].
      destruct (IH _ _ _ _ _ Hrest) as ((n & ->) & Hcalls & Ho).
      split; [exists (8 + n); apply advance_advance|].
      split; [exact Hcalls|].
      change (conflicts (_ :: _ :: tr1)) with (S (conflicts tr1)).
      unfold MAX_ATTEMPTS in *.
      destruct o1 as [c|e|]; cbn [entries advance] in Ho.
      * destruct Ho as (? & ? & ? & ->). split; [done|]. split; [done|].
        split; [lia|]. unfold candidate. cbn [entropy entropy_used advance].
        replace (entropy_used w + 8 + 8 * conflicts tr1)
          with (entropy_used w + 8 * S (conflicts tr1)) by lia.
        reflexivity.
      * destruct Ho as [-> ?]. split; [done|lia].
      * lia.
    + intros [= <- <- <-].
      split; [by exists 8|]. split; [done|].
      split; [exact Hfind|]. split; [|split].
      * apply (toString_hex_token buf). subst buf. rewrite length_map. apply length_seq.
      * cbn. unfold MAX_ATTEMPTS in *. lia.
      * unfold candidate. subst buf. cbn. by rewrite Nat.add_0_r.
  - rewrite while_attempts_done by lia. intros [= <- <- <-].
    split; [exists 0; by rewrite advance_0|]. split; [done|].
    split; [done|]. cbn. unfold MAX_ATTEMPTS in *. lia.
Qed.

(** Against the reference store the allocator fails exactly when it met 5
    conflicts. *)
Lemma allocator_exhausted_iff_conflicts (w : World) :
  (exec prisma generateUniqueShareId w).1.1 = Thrown exhausted <->
  conflicts (exec prisma generateUniqueShareId w).2 = MAX_ATTEMPTS.
Proof.
  destruct (exec prisma generateUniqueShareId w) as [[o w'] tr] eqn:Hexec.
  apply prisma_while_attempts in Hexec as (_ & _ & Ho).
  unfold MAX_ATTEMPTS in *. cbn [fst snd].
  destruct o as [c|e|].
  - destruct Ho as (_ & _ & Hlt & _). split; [discriminate|intros; exfalso; lia].
  - destruct Ho as [-> Hc]. split; [intros; lia|done].
  - exfalso. lia.
Qed.

(** ** Invariants of the entry table *)

Lemma empty_table_invariants :
  share_invariant ∅ /\ unique_tokens ∅ /\ ids_are_keys ∅.
Proof.
  split; [|split]; intros i; intros; by rewrite lookup_empty in *.
Qed.

Lemma table_step_share (keeps : Prop) (m m' : gmap string Entry) :
  keeps -> table_step keeps m m' -> share_invariant m -> share_invariant m'.
Proof.
  intros Hkeeps [->|(i & new & -> & Hw & _)] Hinv; [done|].
  intros j e. rewrite lookup_insert. case_decide as Hij.
  - intros [= <-]. destruct (m !! i) as [old|] eqn:Hold.
    + apply Hw; [exact Hkeeps|]. apply (Hinv i old Hold).
    + apply Hw.
  - apply Hinv.
Qed.

Lemma table_step_ids (keeps : Prop) (m m' : gmap string Entry) :
  table_step keeps m m' -> ids_are_keys m -> ids_are_keys m'.
Proof.
  intros [->|(i & new & -> & Hw & _)] Hinv; [done|].
  intros j e. rewrite lookup_insert. case_decide as Hij.
  - intros [= <-]. subst j. destruct (m !! i) as [old|] eqn:Hold.
    + destruct Hw as [-> _]. apply (Hinv i old Hold).
    + apply Hw.
  - apply Hinv.
Qed.

Lemma table_step_unique (keeps : Prop) (m m' : gmap string Entry) :
  table_step keeps m m' -> unique_tokens m -> unique_tokens m'.
Proof.
  intros [->|(i & new & -> & _ & Horigin)] Hinv; [done|].
  assert (Hnew : forall j e token,
            j <> i -> m !! j = Some e ->
            publicShareId new = Some token -> publicShareId e = Some token -> False).
  { intros j e token Hji Hj Hn He.
    destruct Horigin as [Hnone|[(old & Hold & Hsame)|(token' & Htok & Hfree)]].
    - congruence.
    - apply Hji. eapply (Hinv j i e old token); [done|done|done|congruence].
    - assert (token' = token) as -> by congruence.
      eapply find_by_token_None; eauto. }
  intros j1 j2 e1 e2 token.
  rewrite !lookup_insert. repeat case_decide; subst.
  - done.
  - intros [= <-] H2 Ht1 Ht2. destruct (Hnew j2 e2 token); auto.
  - intros H1 [= <-] Ht1 Ht2. destruct (Hnew j1 e1 token); auto.
  - apply Hinv.
Qed.

(** ** Running the routes against the reference store *)

Lemma conflicts_cons_silent (ev : Event) (tr : list Event) :
  probe_of ev = None -> conflicts (ev :: tr) = conflicts tr.
Proof. intros H. unfold conflicts, probes. cbn. by rewrite H. Qed.

Lemma conflicts_nil : conflicts [] = 0.
Proof. reflexivity. Qed.

Lemma allocator_calls_no_write (tr : list Event) :
  forallb is_allocator_call tr = true ->
  forallb (fun ev => negb (is_entry_write ev)) tr = true.
Proof.
  induction tr as [|[X op r] tr IH]; [done|]. cbn.
  intros [Hev Htr]%andb_prop. rewrite (IH Htr), andb_true_r.
  by destruct op.
Qed.

Section SetIf.
Context {V : Type} (v : option V) (set : V -> UpdateData.t -> UpdateData.t)
        (d : UpdateData.t).

Lemma set_if_isPublic :
  (forall x d', UpdateData.isPublic (set x d') = UpdateData.isPublic d') ->
  UpdateData.isPublic (set_if v set d) = UpdateData.isPublic d.
Proof. destruct v; cbn; auto. Qed.

Lemma set_if_publicShareId :
  (forall x d', UpdateData.publicShareId (set x d') = UpdateData.publicShareId d') ->
  UpdateData.publicShareId (set_if v set d) = UpdateData.publicShareId d.
Proof. destruct v; cbn; auto. Qed.

Lemma set_if_isDeleted :
  (forall x d', UpdateData.isDeleted (set x d') = UpdateData.isDeleted d') ->
  UpdateData.isDeleted (set_if v set d) = UpdateData.isDeleted d.
Proof. destruct v; cbn; auto. Qed.

Lemma set_if_categoryId :
  (forall x d', UpdateData.categoryId (set x d') = UpdateData.categoryId d') ->
  UpdateData.categoryId (set_if v set d) = UpdateData.categoryId d.
Proof. destruct v; cbn; auto. Qed.
End SetIf.

Lemma bool_decide_is_Some {A} (x : A) : bool_decide (is_Some (Some x)) = true.
Proof. apply bool_decide_eq_true. eauto. Qed.

Lemma bool_decide_is_None {A} : bool_decide (is_Some (@None A)) = false.
Proof. apply bool_decide_eq_false. by intros [? ?]. Qed.

(** Symbolic execution of a route against the reference store: [run]
    computes the run as far as it goes and then splits on what it is stuck
    on, a lookup in a table, a field of the request, or a call of the
    allocator, for which [prisma_while_attempts] is used. *)
Ltac run_alloc :=
  rewrite ?exec_try_catch, ?exec_bind;
  lazymatch goal with
  | |- context [exec prisma generateUniqueShareId ?w] =>
      let o := fresh "o" in
      let w1 := fresh "w" in
      let tr := fresh "tr" in
      let H := fresh "Halloc" in
      let Ho := fresh "Houtcome" in
      destruct (exec prisma generateUniqueShareId w) as [[o w1] tr] eqn:H;
      apply prisma_while_attempts in H;
      destruct H as ((? & ->) & ? & Ho);
      destruct o;
      [ destruct Ho as (? & ? & ? & ?)
      | destruct Ho as [-> ?]
      | unfold MAX_ATTEMPTS in Ho; lia ]
  end.

Ltac run_case :=
  match goal with
  | H : ?m !! ?k = _ |- context [?m !! ?k] => rewrite H
  | H : nonempty ?x = _ |- context [nonempty ?x] => rewrite H
  | |- context [option_list (?m !! ?k)] => destruct (m !! k) eqn:?
  | |- context [fmap _ (?m !! ?k)] => destruct (m !! k) eqn:?
  | |- context [match ?m !! ?k with _ => _ end] => destruct (m !! k) eqn:?
  | |- context [match nonempty ?x with _ => _ end] => destruct (nonempty x) eqn:?
  | |- context [is_Some (nonempty ?x)] => destruct (nonempty x) eqn:?
  | |- context [match ai ?w ?o with _ => _ end] => destruct (ai w o) eqn:?
  | |- context [match ?x with _ => _ end] => is_var x; destruct x
  | |- context [is_truthy ?v] => is_var v; destruct v
  | |- context [andb ?b _] => is_var b; destruct b
  | |- context [negb ?b] => is_var b; destruct b
  | |- context [bool_decide ?P] => case_bool_decide
  | |- context [if ?b then _ else _] => destruct b eqn:?
  end.

Ltac run_simpl :=
  repeat progress
    (cbn -[generateUniqueShareId conflicts MAX_ATTEMPTS set_if nonempty candidate];
     unfold valid_update;
     rewrite ?set_if_categoryId, ?set_if_isPublic by reflexivity);
  rewrite ?bool_decide_is_Some, ?bool_decide_is_None;
  unfold matches.

Ltac run := repeat (run_simpl; try first [run_case | run_alloc]).

(** Closing the cases of a [summary]. *)
Ltac count_conflicts :=
  repeat first [ rewrite conflicts_cons_silent by reflexivity
               | rewrite conflicts_app
               | rewrite conflicts_nil ].

Ltac no_writes :=
  rewrite ?forallb_app; cbn [forallb is_entry_write negb andb];
  rewrite ?allocator_calls_no_write by assumption; reflexivity.

Ltac share_fields :=
  unfold share_ok, update_row, create_row;
  repeat progress (cbn -[set_if];
                   rewrite ?set_if_isPublic, ?set_if_publicShareId by reflexivity).

Ltac finish_share :=
  unfold no_set_false in *; split; intros; first [done | congruence | tauto].

Ltac finish_written :=
  try match goal with
      | H : nonempty (publicShareId ?e) = Some _ |- _ =>
          destruct (publicShareId e) eqn:?; [|discriminate H]
      end;
  split;
  [ split; [reflexivity | first [ intros ? [? ?]; finish_share | finish_share ] ]
  | first [ left; reflexivity
          | right; left; eexists; split; [reflexivity | first [reflexivity | congruence]]
          | right; right; eexists; split; [reflexivity | assumption] ] ].

Ltac finish_table :=
  first
    [ by left
    | right;
      lazymatch goal with
      | |- exists i new, <[?k := _]> ?m = _ /\ _ =>
          eexists k, _; split; [reflexivity|];
          unfold written, token_origin;
          match goal with H : m !! k = _ |- _ => rewrite H end;
          share_fields; finish_written
      end ].

Ltac finish_conflicts :=
  count_conflicts; intros Hc;
  first
    [ exfalso; unfold MAX_ATTEMPTS in *; cbn in Hc; lia
    | split; [reflexivity|]; split; [no_writes|];
      first [left; reflexivity | right; by eexists] ].

Ltac finish :=
  split; [finish_table|];
  split; [reflexivity|]; split; [reflexivity|]; split; [by eexists|];
  finish_conflicts.

Lemma entries_patch_summary user i body w :
  summary (no_set_false (EntryUpdateData.isPublic body)) w
    (exec prisma (Entries.patch user i body) w).
Proof.
  destruct body as [t s c cat p pub].
  unfold Entries.patch. run; finish.
Qed.

Lemma entries_post_summary user body w :
  summary True w (exec prisma (Entries.post user body) w).
Proof.
  destruct body as [t s c cat p pub].
  unfold Entries.post. run; finish.
Qed.

Lemma entries_restore_summary user i w :
  summary True w (exec prisma (Entries.restore user i) w).
Proof. unfold Entries.restore. run; finish. Qed.

Lemma entries_soft_delete_summary user i w :
  summary True w (exec prisma (Entries.soft_delete user i) w).
Proof. unfold Entries.soft_delete. run; finish. Qed.

Lemma notes_generate_summary user body w :
  summary True w (exec prisma (Notes.generate user body) w).
Proof.
  destruct body as [t s au to len sv cat pub].
  unfold Notes.generate. run; finish.
Qed.

Lemma notes_patch_summary user i body w :
  summary (no_set_false (NoteUpdateBody.isPublic body)) w
    (exec prisma (Notes.patch user i body) w).
Proof.
  destruct body as [t s c cat pub].
  unfold Notes.patch. run; finish.
Qed.

Lemma serve_write_summary (r : WriteRequest) (w : World) :
  summary (plain_write r) w (exec prisma (serve_write r) w).
Proof.
  destruct r; cbn [serve_write].
  - apply entries_post_summary.
  - apply entries_patch_summary.
  - apply entries_restore_summary.
  - apply entries_soft_delete_summary.
  - apply notes_generate_summary.
  - apply notes_patch_summary.
Qed.

(** A read leaves the world as it is, and looks no token up, whatever the
    collaborators answer. *)
Lemma serve_read_world (r : ReadRequest) (w : World) :
  (exec prisma (serve_read r) w).1.2 = w.
Proof.
  destruct r; cbn [serve_read]; repeat case_bool_decide;
    unfold Entries.get_public, Entries.get_all, Entries.get_trash,
      Entries.get_one, Entries.bookmarks_all;
    run; reflexivity.
Qed.

Lemma serve_read_probes {W : Type} (h : Handler W) (r : ReadRequest) (w : W) :
  probes (exec h (serve_read r) w).2 = [].
Proof.
  destruct r; cbn [serve_read]; repeat case_bool_decide; cbn;
    match goal with |- context [h ?X ?op w] => destruct (h X op w) as [[x|e] w1] end;
    repeat (cbn;
            try match goal with
                | |- context [match ?x with _ => _ end] => is_var x; destruct x
                | |- context [if ?b then _ else _] => destruct b
                end);
    reflexivity.
Qed.

Lemma serve_table_step (r : Request) (w : World) :
  table_step (plain r) (entries w) (entries (exec prisma (serve r) w).1.2).
Proof.
  destruct r as [r|r]; cbn [serve].
  - rewrite serve_read_world. by left.
  - pose proof (serve_write_summary r w) as Hsum.
    destruct (exec prisma (serve_write r) w) as [[o w'] tr]. apply Hsum.
Qed.

Lemma serve_all_table_invariant (P : gmap string Entry -> Prop) :
  (forall keeps m m', table_step keeps m m' -> P m -> P m') ->
  forall rs w, P (entries w) -> P (entries (serve_all prisma rs w)).
Proof.
  intros Hstep rs. induction rs as [|r rs IH]; intros w Hw; [exact Hw|].
  cbn. apply IH. eapply Hstep; [apply serve_table_step|exact Hw].
Qed.

Lemma ids_are_keys_preserved (w : World) (rs : list Request) :
  ids_are_keys (entries w) -> ids_are_keys (entries (serve_all prisma rs w)).
Proof. apply (serve_all_table_invariant ids_are_keys table_step_ids). Qed.

Lemma serve_all_share_invariant (rs : list Request) (w : World) :
  Forall plain rs ->
  share_invariant (entries w) -> share_invariant (entries (serve_all prisma rs w)).
Proof.
  intros Hplain. revert w. induction Hplain as [|r rs Hr _ IH]; intros w Hw; [exact Hw|].
  cbn. apply IH. eapply table_step_share; [exact Hr|apply serve_table_step|exact Hw].
Qed.

(** ** The routes *)

(** C2, amended. The invariant [isPublic = true] implies a non-null
    [publicShareId] and [isPublic = false] implies a null one, once true of
    every row, is true of every row after any requests, create, update,
    soft delete and restore (and any read), in any order, when they are
    served one at a time and no update sends the object [{ set: false }]
    as its [isPublic]. *)
Theorem share_invariant_preserved (w : World) (rs : list Request) :
  Forall plain rs ->
  share_invariant (entries w) ->
  forall i e,
    entries (serve_all prisma rs w) !! i = Some e ->
    (isPublic e = true -> publicShareId e <> None) /\
    (isPublic e = false -> publicShareId e = None).
Proof.
  intros Hplain Hinv. apply (serve_all_share_invariant rs w Hplain Hinv).
Qed.

(** C6. Uniqueness of bound tokens: once no two distinct rows hold the same
    token, none do in any state reached by serving requests one after the
    other; in particular in every state reached from an empty table. *)
Theorem unique_tokens_preserved (w : World) (rs : list Request) :
  unique_tokens (entries w) ->
  forall i j e1 e2 token,
    entries (serve_all prisma rs w) !! i = Some e1 ->
    entries (serve_all prisma rs w) !! j = Some e2 ->
    publicShareId e1 = Some token ->
    publicShareId e2 = Some token ->
    i = j.
Proof.
  intros Hinv.
  apply (serve_all_table_invariant unique_tokens table_step_unique rs w Hinv).
Qed.

(** C7. Atomicity on exhaustion: when the allocator meets 5 conflicts
    inside a create or update request (of either file), the request writes
    nothing: no create or update call is made, the tables are the ones
    before the request, and the request fails, with [next(err)] in
    [entries.ts] and a generic 500 in [notes.ts]. *)
Theorem exhaustion_commits_nothing (w : World) (r : WriteRequest) :
  conflicts (exec prisma (serve_write r) w).2 = MAX_ATTEMPTS ->
  let '(o, w', tr) := exec prisma (serve_write r) w in
  entries w' = entries w /\
  categories w' = categories w /\
  bookmarks w' = bookmarks w /\
  forallb (fun ev => negb (is_entry_write ev)) tr = true /\
  (o = Returned (Next exhausted) \/
   exists msg, o = Returned (Respond 500 (JError msg))).
Proof.
  pose proof (serve_write_summary r w) as Hsum.
  destruct (exec prisma (serve_write r) w) as [[o w'] tr].
  destruct Hsum as (_ & Hcat & Hbook & _ & Hex).
  cbn. intros Hc. destruct (Hex Hc) as (? & ? & ?). done.
Qed.

(** C8. The allocator only reads: whatever the collaborators answer, the
    only calls it makes are draws of 8 random bytes and existence probes,
    never a create or an update; against the reference store it hands back
    the tables, the id source and the clock as they were (only random bytes
    were consumed), and the token it returns is bound to no row: binding it
    is left to the caller. *)
Theorem allocator_read_only :
  (forall (W : Type) (h : Handler W) (w : W),
     forallb is_allocator_call (exec h generateUniqueShareId w).2 = true /\
     forallb (fun ev => negb (is_entry_write ev)) (exec h generateUniqueShareId w).2 = true) /\
  (forall w : World,
     let '(o, w', tr) := exec prisma generateUniqueShareId w in
     (exists n, w' = advance n w) /\
     entries w' = entries w /\
     categories w' = categories w /\
     bookmarks w' = bookmarks w /\
     ids_used w' = ids_used w /\
     now w' = now w /\
     forall c, o = Returned c -> find_by_token (entries w') c = None).
Proof.
  split.
  - intros W h w.
    pose proof (while_attempts_calls h (S MAX_ATTEMPTS) 0 w) as Hcalls.
    split; [exact Hcalls|]. apply allocator_calls_no_write, Hcalls.
  - intros w.
    destruct (exec prisma generateUniqueShareId w) as [[o w'] tr] eqn:Hexec.
    apply prisma_while_attempts in Hexec as ((n & ->) & _ & Ho).
    split; [by exists n|]. repeat (split; [reflexivity|]).
    intros c ->. apply Ho.
Qed.

(** *** Re-publishing an entry that is already public *)

(** C1, as worded, fails: the notes update answers 200 to the request to
    share again the entry shared under abc123, makes no probe, and leaves
    abc123 in place. *)
Lemma notes_patch_keeps_token :
  (exec prisma (Notes.patch "u1" "e1" reshare_note) shared_world).1.1
  = Returned (Respond 200 (JNote
      {| sel_id := "e1"; sel_publicShareId := Some "abc123";
         sel_title := "Groceries"; sel_synopsis := "list"; sel_content := "milk" |})) /\
  probes (exec prisma (Notes.patch "u1" "e1" reshare_note) shared_world).2 = [] /\
  (entries (exec prisma (Notes.patch "u1" "e1" reshare_note) shared_world).1.2 !! "e1")
    ≫= publicShareId = Some "abc123" /\
  ~ regenerated_by_both_updates.
Proof.
  split; [vm_compute; reflexivity|]. split; [vm_compute; reflexivity|].
  split; [vm_compute; reflexivity|].
  intros [_ Hnotes].
  specialize (Hnotes "u1" "e1" reshare_note eq_refl shared_world shared_entry "abc123"
                eq_refl eq_refl eq_refl).
  cbn [serve_write] in Hnotes.
  destruct (exec prisma (Notes.patch "u1" "e1" reshare_note) shared_world)
    as [[o w'] tr] eqn:Hexec.
  vm_compute in Hexec. injection Hexec as <- <- <-.
  destruct Hnotes as (new & t' & Hnew & Htok & Hne); [by eexists|].
  vm_compute in Hnew. injection Hnew as <-.
  cbn in Htok. injection Htok as <-. by apply Hne.
Qed.

(** C1, amended. Of an entry that is public with token [t]: when the
    entries update sets [isPublic] to true and answers 200, the entry ends
    public with a token freshly allocated, bound to no row before and other
    than [t]; when the notes update does so and [t] is not the empty
    string, no allocation takes place and the entry keeps [t]. *)
Theorem republish_policy (w : World) (user i : string) (old : Entry) (t : string) :
  entries w !! i = Some old ->
  isPublic old = true ->
  publicShareId old = Some t ->
  (forall body,
     EntryUpdateData.isPublic body = Some (Plain true) ->
     let '(o, w', _) := exec prisma (Entries.patch user i body) w in
     (exists b, o = Returned (Respond 200 b)) ->
     exists new t',
       entries w' !! i = Some new /\ isPublic new = true /\
       publicShareId new = Some t' /\ t' <> t /\
       find_by_token (entries w) t' = None /\ is_share_token t') /\
  (forall body,
     NoteUpdateBody.isPublic body = Some (Plain true) ->
     t <> "" ->
     let '(o, w', tr) := exec prisma (Notes.patch user i body) w in
     (exists b, o = Returned (Respond 200 b)) ->
     probes tr = [] /\
     exists new,
       entries w' !! i = Some new /\ isPublic new = true /\
       publicShareId new = Some t).
Proof.
  intros Hold Hpub Htok. split.
  - intros [tt s c cat p pub] Hbody. cbn in Hbody. subst pub.
    unfold Entries.patch. run.
    all: intros [b Hb]; try discriminate Hb.
    all: eexists _, _; rewrite lookup_insert_eq; split; [reflexivity|].
    all: unfold update_row; cbn -[set_if];
      rewrite ?set_if_isPublic, ?set_if_publicShareId by reflexivity; cbn.
    all: split; [reflexivity|]; split; [reflexivity|].
    all: split; [|split; assumption].
    all: intros ->; simplify_eq.
    all: match goal with
         | H : find_by_token _ _ = None |- _ =>
             eapply (proj1 (find_by_token_None _ _) H); eauto
         end.
  - intros [tt s c cat pub] Hbody Hne. cbn in Hbody. subst pub.
    unfold Notes.patch. run.
    all: intros [b Hb]; try discriminate Hb.
    all: match goal with
         | H : nonempty (publicShareId _) = _ |- _ =>
             rewrite Htok in H; destruct t; [done|]; cbn in H; try discriminate H
         end.
    all: split; [reflexivity|]; eexists; rewrite lookup_insert_eq; split; [reflexivity|].
    all: unfold update_row; cbn -[set_if];
      rewrite ?set_if_isPublic, ?set_if_publicShareId by reflexivity; cbn.
    all: split; [reflexivity|exact Htok].
Qed.


(** *** The public read *)

Lemma elem_of_rows (m : gmap string Entry) (e : Entry) :
  e ∈ rows m <-> exists i, m !! i = Some e.
Proof.
  unfold rows. rewrite list_elem_of_fmap. split.
  - intros ([i e'] & -> & Hin). exists i. by apply elem_of_map_to_list.
  - intros [i Hi]. exists (i, e). split; [done|]. by apply elem_of_map_to_list.
Qed.

(** C9. The public read is keyed by the primary id: in a table whose rows
    are stored under their [id], [GET /public/entries/:id] answers 200 with
    the entry exactly when a row whose [id] is the identifier given exists
    and is public, and 404 otherwise; it changes nothing; and no read route
    ever looks a row up by its [publicShareId], whatever the collaborators
    answer. *)
Theorem public_read_is_by_id (w : World) (x : string) :
  ids_are_keys (entries w) ->
  let '(o, w', tr) := exec prisma (Entries.get_public x) w in
  w' = w /\
  ((exists e, e ∈ rows (entries w) /\ id e = x /\ isPublic e = true) <->
   (exists p, o = Returned (Respond 200 (JEntry p)))) /\
  (forall p, o = Returned (Respond 200 (JEntry p)) ->
     entries w !! x = Some (row p) /\ id (row p) = x /\ isPublic (row p) = true) /\
  (o = Returned (Respond 404 (JMessage "Entry not found or is private.")) \/
   exists p, o = Returned (Respond 200 (JEntry p))) /\
  probes tr = [] /\
  forall (W : Type) (h : Handler W) (r : ReadRequest) (w0 : W),
    probes (exec h (serve_read r) w0).2 = [].
Proof.
  intros Hkeys.
  assert (Hrows : forall e, e ∈ rows (entries w) /\ id e = x <-> entries w !! x = Some e).
  { intros e. rewrite elem_of_rows. split.
    - intros [[i Hi] Hid]. by rewrite <- Hid, (Hkeys i e Hi).
    - intros Hx. split; [eauto|]. by apply Hkeys. }
  unfold Entries.get_public. run.
  all: split; [reflexivity|]; split; [|split; [|split; [|split; [reflexivity|apply @serve_read_probes]]]].
  - (* found, private *)
    split; [|intros [p Hp]; discriminate Hp].
    intros (e' & Hin & Hid & Hpub). exfalso.
    pose proof (proj1 (Hrows e') (conj Hin Hid)) as Hx. simplify_eq.
    rewrite Hpub in *. discriminate.
  - intros p Hp. discriminate Hp.
  - by left.
  - (* found, public *)
    split; [intros _; by eexists|]. intros _. exists e.
    apply negb_false_iff in Heqb.
    split; [by apply Hrows|]. split; [by apply Hkeys in Heqo|done].
  - intros p [= <-]. cbn. apply negb_false_iff in Heqb.
    split; [done|]. split; [by apply Hkeys in Heqo|done].
  - right. by eexists.
  - (* not found *)
    split; [|intros [p Hp]; discriminate Hp].
    intros (e' & Hin & Hid & Hpub).
    pose proof (proj1 (Hrows e') (conj Hin Hid)) as Hx. discriminate Hx.
  - intros p Hp. discriminate Hp.
  - by left.
Qed.

(** *** Updating a soft-deleted entry *)



(** * Further properties of the routes *)

(** ** Calls of the routes *)

Lemma makes_only_exec (P : forall X, Op X -> bool) {W A} (h : Handler W) (p : Prog A) (w : W) :
  makes_only P p ->
  (exec h p w).1.1 <> Unfinished /\ forallb (event_ok P) (exec h p w).2 = true.
Proof.
  intros Hp. revert w. induction Hp as [A a|A e|A X op k Hop Hk IH]; intros w; cbn.
  - done.
  - done.
  - destruct (h X op w) as [r w1]. specialize (IH r w1).
    destruct (exec h (k r) w1) as [[o w2] tr]. cbn in *.
    rewrite Hop. exact IH.
Qed.

Lemma makes_only_bind (P : forall X, Op X -> bool) {A B} (p : Prog A) (f : A -> Prog B) :
  makes_only P p -> (forall a, makes_only P (f a)) -> makes_only P (bind p f).
Proof.
  intros Hp Hf. induction Hp as [A a|A e|A X op k Hop Hk IH]; cbn.
  - apply Hf.
  - constructor.
  - constructor; [exact Hop|]. intros r. apply IH, Hf.
Qed.

Lemma makes_only_try_catch (P : forall X, Op X -> bool) {A} (p : Prog A)
    (handler : Error -> Prog A) :
  makes_only P p -> (forall e, makes_only P (handler e)) ->
  makes_only P (try_catch p handler).
Proof.
  intros Hp Hh. induction Hp as [A a|A e|A X op k Hop Hk IH]; cbn.
  - constructor.
  - apply Hh.
  - constructor; [exact Hop|]. intros r. apply IH, Hh.
Qed.

Lemma makes_only_await (P : forall X, Op X -> bool) {X} (op : Op X) :
  P X op = true -> makes_only P (await op).
Proof. intros Hop. constructor; [exact Hop|]. intros [x|e]; constructor. Qed.

Lemma makes_only_while_attempts (P : forall X, Op X -> bool) (fuel a : nat) :
  P _ (RandomBytes 8) = true ->
  (forall c, P _ (EntryFindUnique (ByPublicShareId c) false) = true) ->
  MAX_ATTEMPTS - a < fuel ->
  makes_only P (while_attempts fuel a).
Proof.
  intros Hdraw Hprobe. revert a. induction fuel as [|fuel IH]; intros a Hfuel; [lia|].
  cbn [while_attempts]. destruct (a <? MAX_ATTEMPTS)%nat eqn:Hlt; [|constructor].
  apply Nat.ltb_lt in Hlt.
  apply makes_only_bind.
  - unfold generateShareId. apply makes_only_bind; [by apply makes_only_await|].
    intros buf. constructor.
  - intros c. apply makes_only_bind; [by apply makes_only_await|].
    intros [x|]; [|constructor]. apply IH. lia.
Qed.

Lemma makes_only_allocator (P : forall X, Op X -> bool) :
  P _ (RandomBytes 8) = true ->
  (forall c, P _ (EntryFindUnique (ByPublicShareId c) false) = true) ->
  makes_only P generateUniqueShareId.
Proof.
  intros Hdraw Hprobe. apply makes_only_while_attempts; [done|done|].
  unfold MAX_ATTEMPTS. lia.
Qed.

Ltac only_step :=
  first
    [ apply only_ret
    | apply only_throw
    | apply makes_only_try_catch; [|intros ?]
    | apply makes_only_allocator; [reflexivity|intros ?; reflexivity]
    | apply makes_only_await; reflexivity
    | apply makes_only_bind; [|intros ?]
    | match goal with
      | |- makes_only _ (match ?x with _ => _ end) => destruct x
      | |- makes_only _ (if ?b then _ else _) => destruct b
      end ].

Ltac discipline := cbn zeta beta; repeat only_step.

Lemma serve_read_makes_only_reads (r : ReadRequest) :
  makes_only is_read_call (serve_read r).
Proof.
  destruct r; cbn [serve_read]; repeat case_bool_decide;
    unfold Entries.get_public, Entries.get_all, Entries.get_trash, Entries.get_one,
      Entries.bookmarks_all; discipline.
Qed.

Lemma serve_makes_calls (r : Request) : makes_only any_call (serve r).
Proof.
  destruct r as [r|[]]; cbn [serve serve_write].
  - destruct r; cbn [serve_read]; repeat case_bool_decide;
    unfold Entries.get_public, Entries.get_all, Entries.get_trash, Entries.get_one,
      Entries.bookmarks_all; discipline.
  - unfold Entries.post. discipline.
  - unfold Entries.patch. discipline.
  - unfold Entries.restore. discipline.
  - unfold Entries.soft_delete. discipline.
  - unfold Notes.generate. discipline.
  - unfold Notes.patch. discipline.
Qed.

Lemma answers_try_catch {A} (p : Prog A) (handler : Error -> Prog A) :
  makes_only any_call p -> (forall e, answers (handler e)) ->
  answers (try_catch p handler).
Proof.
  intros Hp Hh. induction Hp as [A a|A e|A X op k Hop Hk IH]; cbn.
  - constructor.
  - apply Hh.
  - constructor. intros r. apply IH, Hh.
Qed.

Lemma answers_exec {W A} (h : Handler W) (p : Prog A) (w : W) :
  answers p -> exists a, (exec h p w).1.1 = Returned a.
Proof.
  intros Hp. revert w. induction Hp as [A a|A X op k Hk IH]; intros w; cbn.
  - by exists a.
  - destruct (h X op w) as [r w1]. destruct (IH r w1) as [a Ha].
    destruct (exec h (k r) w1) as [[o w2] tr]. by exists a.
Qed.

Lemma serve_answers (r : Request) : answers (serve r).
Proof.
  destruct r as [r|[]]; cbn [serve serve_write].
  - destruct r; cbn [serve_read]; repeat case_bool_decide;
    unfold Entries.get_public, Entries.get_all, Entries.get_trash, Entries.get_one,
      Entries.bookmarks_all; (apply answers_try_catch; [discipline|intros ?; constructor]).
  - unfold Entries.post. apply answers_try_catch; [discipline|intros ?; constructor].
  - unfold Entries.patch. apply answers_try_catch; [discipline|intros ?; constructor].
  - unfold Entries.restore. apply answers_try_catch; [discipline|intros ?; constructor].
  - unfold Entries.soft_delete. apply answers_try_catch; [discipline|intros ?; constructor].
  - unfold Notes.generate. destruct user; [|constructor]. cbn zeta.
    match goal with |- answers (if ?b then _ else _) => destruct b end; [constructor|].
    apply answers_try_catch; [discipline|intros ?; constructor].
  - unfold Notes.patch. apply answers_try_catch; [discipline|intros ?; constructor].
Qed.

(** ** Validation and ownership *)

(** X1. [POST /] with a title, synopsis, content or categoryId that is
    missing or empty answers 400 before any call is made: whatever the
    collaborators are, the store is not touched and nothing is called. *)
Theorem post_requires_fields {W : Type} (h : Handler W) (user : string)
    (body : EntryCreationData.t) (w : W) :
  nonempty (EntryCreationData.title body) = None \/
  nonempty (EntryCreationData.synopsis body) = None \/
  nonempty (EntryCreationData.content body) = None \/
  nonempty (EntryCreationData.categoryId body) = None ->
  exec h (Entries.post user body) w
  = (Returned (Respond 400
       (JMessage "Title, synopsis, content, and categoryId are required.")), w, []).
Proof.
  intros Hmissing. unfold Entries.post.
  destruct (nonempty (EntryCreationData.title body));
    destruct (nonempty (EntryCreationData.synopsis body));
    destruct (nonempty (EntryCreationData.content body));
    destruct (nonempty (EntryCreationData.categoryId body));
    try reflexivity.
  destruct Hmissing as [H|[H|[H|H]]]; discriminate H.
Qed.

(** X2. A categoryId that names no category is answered with 404 and the
    store is left as it was: by [POST /] when the other fields are given,
    by [PATCH /:id] on an entry of the user that is not deleted, and by the
    notes [PATCH /:id] on an entry of the user. *)
Theorem unknown_category_is_rejected (w : World) (user : string) :
  (forall body c,
     nonempty (EntryCreationData.categoryId body) = Some c ->
     categories w !! c = None ->
     is_Some (nonempty (EntryCreationData.title body)) ->
     is_Some (nonempty (EntryCreationData.synopsis body)) ->
     is_Some (nonempty (EntryCreationData.content body)) ->
     (exec prisma (Entries.post user body) w).1
     = (Returned (Respond 404 (JMessage "Invalid categoryId provided.")), w)) /\
  (forall i e body c,
     entries w !! i = Some e -> userId e = user -> isDeleted e = false ->
     EntryUpdateData.categoryId body = Some c ->
     categories w !! c = None ->
     (exec prisma (Entries.patch user i body) w).1
     = (Returned (Respond 404 (JMessage "Invalid categoryId provided.")), w)) /\
  (forall i e body c,
     entries w !! i = Some e -> userId e = user ->
     NoteUpdateBody.categoryId body = Some c ->
     categories w !! c = None ->
     (exec prisma (Notes.patch user i body) w).1
     = (Returned (Respond 404 (JMessage "Invalid categoryId.")), w)).
Proof.
  split; [|split].
  - intros [t s c0 cat p pub] c Hc Hcat [t' Ht] [s' Hs] [c' Hcont].
    cbn in Hc, Ht, Hs, Hcont. unfold Entries.post. cbn.
    rewrite Ht, Hs, Hcont, Hc. cbn. rewrite Hcat. reflexivity.
  - intros i e [t s c0 cat p pub] c He Hu Hd Hc Hcat. cbn in Hc. subst cat.
    unfold Entries.patch. run; congruence.
  - intros i e [t s c0 cat pub] c He Hu Hc Hcat. cbn in Hc. subst cat.
    unfold Notes.patch. run; congruence.
Qed.


(** X4. The soft-delete flag guards the routes of entries: an entry in
    the trash cannot be soft-deleted again or read by [GET /:id] (404), and
    an entry that is not in the trash cannot be restored (404) and is read
    by [GET /:id]; none of these changes the store. *)
Theorem trash_guards (w : World) (user i : string) (e : Entry) :
  entries w !! i = Some e ->
  userId e = user ->
  (isDeleted e = true ->
     (exec prisma (Entries.soft_delete user i) w).1
       = (Returned (Respond 404 (JMessage "Entry not found.")), w) /\
     (exec prisma (Entries.get_one user i) w).1
       = (Returned (Respond 404 (JMessage "Entry not found.")), w)) /\
  (isDeleted e = false ->
     (exec prisma (Entries.restore user i) w).1
       = (Returned (Respond 404 (JMessage "Entry not found in trash.")), w) /\
     (exec prisma (Entries.get_one user i) w).1
       = (Returned (Respond 200 (JEntry (with_include (categories w) true e))), w)).
Proof.
  intros He Hu. split; intros Hd; split.
  all: unfold Entries.soft_delete, Entries.restore, Entries.get_one; run.
  all: try reflexivity; try congruence.
  all: rewrite Hd in *; discriminate.
Qed.

(** ** Creating and reading back *)

Lemma post_created (w : World) (user : string) (body : EntryCreationData.t) :
  let '(o, w', _) := exec prisma (Entries.post user body) w in
  forall p, o = Returned (Respond 201 (JEntry p)) ->
  entries w !! id (row p) = None /\
  entries w' = <[id (row p) := row p]> (entries w) /\
  categories w' = categories w /\
  p = with_include (categories w) true (row p) /\
  userId (row p) = user /\
  isDeleted (row p) = false /\
  pinned (row p) = default false (EntryCreationData.pinned body) /\
  isPublic (row p) = default false (EntryCreationData.isPublic body) /\
  EntryCreationData.title body = Some (title (row p)) /\
  EntryCreationData.synopsis body = Some (synopsis (row p)) /\
  EntryCreationData.content body = Some (content (row p)) /\
  EntryCreationData.categoryId body = Some (categoryId (row p)).
Proof.
  destruct body as [t s c cat pn pub]. unfold Entries.post. run.
  all: intros p Hrun; try discriminate Hrun.
  all: injection Hrun as <-.
  all: repeat match goal with H : nonempty ?x = Some _ |- _ =>
         destruct x as [[|]|]; cbn in H; try discriminate H; injection H as <- end.
  all: cbn; repeat (split; [first [assumption | reflexivity]|]); reflexivity.
Qed.

(** X5. When [POST /] answers 201 with an entry, that entry was stored
    under an id that was free, belongs to the user, is not deleted, carries
    the four required fields of the request with [pinned] and [isPublic]
    defaulting to false, and [GET /:id] by the same user then returns
    exactly the entry of the 201 answer. *)
Theorem post_then_get (w w' : World) (user : string) (body : EntryCreationData.t)
    (p : EntryWithCategory) :
  (exec prisma (Entries.post user body) w).1 = (Returned (Respond 201 (JEntry p)), w') ->
  entries w !! id (row p) = None /\
  entries w' = <[id (row p) := row p]> (entries w) /\
  userId (row p) = user /\
  isDeleted (row p) = false /\
  pinned (row p) = default false (EntryCreationData.pinned body) /\
  isPublic (row p) = default false (EntryCreationData.isPublic body) /\
  EntryCreationData.title body = Some (title (row p)) /\
  EntryCreationData.synopsis body = Some (synopsis (row p)) /\
  EntryCreationData.content body = Some (content (row p)) /\
  EntryCreationData.categoryId body = Some (categoryId (row p)) /\
  (exec prisma (Entries.get_one user (id (row p))) w').1
  = (Returned (Respond 200 (JEntry p)), w').
Proof.
  intros Hrun. pose proof (post_created w user body) as Hpost.
  destruct (exec prisma (Entries.post user body) w) as [[o w1] tr].
  cbn in Hrun. injection Hrun as -> ->.
  destruct (Hpost p eq_refl)
    as (Hfresh & Hw & Hcat & Hp & Hu & Hd & Hpin & Hpub & Ht & Hs & Hc & Hcg).
  repeat (split; [assumption|]).
  unfold Entries.get_one. cbn -[select]. unfold select, matches. cbn.
  rewrite Hw, lookup_insert_eq. cbn.
  rewrite !bool_decide_eq_true_2 by assumption. cbn.
  rewrite Hcat, <- Hp. reflexivity.
Qed.

(** ** The listings *)

Lemma precedes_total (o : list OrderBy) (a b : Entry) :
  precedes o a b = false -> precedes o b a = true.
Proof.
  induction o as [|[|] o IH]; cbn [precedes]; [discriminate| |].
  - repeat case_bool_decide; try congruence; auto.
    destruct (pinned a), (pinned b); congruence.
  - repeat case_bool_decide; try congruence; auto.
    intros Hge%Nat.ltb_ge. apply Nat.ltb_lt. lia.
Qed.

Lemma precedes_trans (o : list OrderBy) (a b c : Entry) :
  precedes o a b = true -> precedes o b c = true -> precedes o a c = true.
Proof.
  induction o as [|[|] o IH]; cbn [precedes]; [done| |].
  - repeat case_bool_decide; auto; try congruence;
      destruct (pinned a), (pinned b), (pinned c); congruence.
  - repeat case_bool_decide; auto; try congruence;
      rewrite ?Nat.ltb_lt; try lia; intros; exfalso; lia.
Qed.

Lemma insert_ordered_perm (o : list OrderBy) (x : Entry) (l : list Entry) :
  insert_ordered o x l ≡ₚ x :: l.
Proof.
  induction l as [|y l IH]; cbn; [done|].
  destruct (precedes o y x); [|done]. rewrite IH. apply Permutation_swap.
Qed.

Lemma order_rows_perm (o : list OrderBy) (l : list Entry) : order_rows o l ≡ₚ l.
Proof.
  unfold order_rows.
  assert (H : forall acc, fold_left (fun acc x => insert_ordered o x acc) l acc ≡ₚ l ++ acc).
  { induction l as [|x l IH]; intros acc; cbn; [done|].
    rewrite IH, insert_ordered_perm. by rewrite Permutation_middle. }
  rewrite H. by rewrite app_nil_r.
Qed.

Lemma insert_ordered_sorted (o : list OrderBy) (x : Entry) (l : list Entry) :
  StronglySorted (fun a b => precedes o a b = true) l ->
  StronglySorted (fun a b => precedes o a b = true) (insert_ordered o x l).
Proof.
  induction 1 as [|y l Hs IH Hall]; cbn; [repeat constructor|].
  destruct (precedes o y x) eqn:Hyx.
  - constructor; [exact IH|].
    rewrite insert_ordered_perm. by constructor.
  - apply precedes_total in Hyx. constructor; [by constructor|].
    constructor; [exact Hyx|].
    eapply Forall_impl; [exact Hall|]. intros z Hz. cbn in Hz.
    eapply precedes_trans; eauto.
Qed.

Lemma order_rows_sorted (o : list OrderBy) (l : list Entry) :
  StronglySorted (fun a b => precedes o a b = true) (order_rows o l).
Proof.
  unfold order_rows.
  assert (H : forall acc, StronglySorted (fun a b => precedes o a b = true) acc ->
    StronglySorted (fun a b => precedes o a b = true)
      (fold_left (fun acc x => insert_ordered o x acc) l acc)).
  { induction l as [|x l IH]; intros acc Hacc; cbn; [done|].
    apply IH, insert_ordered_sorted, Hacc. }
  apply H. constructor.
Qed.

Lemma select_by_owner (m : gmap string Entry) (user : string) (deleted : bool) :
  select (mkWhere None (Some user) (Some deleted)) m
  = filter (fun e => userId e = user /\ isDeleted e = deleted) (rows m).
Proof.
  unfold select. cbn [where_id]. induction (rows m) as [|e l IH]; [done|].
  cbn [List.filter]. rewrite IH. unfold matches. cbn [where_userId where_isDeleted].
  rewrite filter_cons. repeat case_bool_decide; case_decide; cbn; try reflexivity; tauto.
Qed.

Lemma rows_of_included (cats : gmap string Category) (l : list Entry) :
  row <$> (with_include cats true <$> l) = l.
Proof. induction l as [|e l IH]; cbn; [done|]. by rewrite IH. Qed.

Lemma strongly_sorted_impl {A} (R S : A -> A -> Prop) (l : list A) :
  (forall a b, R a b -> S a b) -> StronglySorted R l -> StronglySorted S l.
Proof.
  intros HRS. induction 1 as [|x l Hs IH Hall]; constructor; [exact IH|].
  eapply Forall_impl; [exact Hall|]. auto.
Qed.

Lemma precedes_listed_before (a b : Entry) :
  precedes [PinnedDesc; CreatedAtDesc] a b = true -> listed_before a b.
Proof.
  unfold listed_before. cbn [precedes]. repeat case_bool_decide.
  - intros _. right. split; [done|lia].
  - intros Hlt%Nat.ltb_lt. right. split; [done|lia].
  - intros Hp. left. split; [done|]. destruct (pinned b); congruence.
Qed.

Lemma precedes_newer_first (a b : Entry) :
  precedes [CreatedAtDesc] a b = true -> newer_first a b.
Proof.
  unfold newer_first. cbn [precedes]. case_bool_decide; [lia|].
  intros Hlt%Nat.ltb_lt. lia.
Qed.

(** X6. [GET /] answers 200 and leaves the store as it was; the entries
    listed are exactly the user's entries that are not deleted, each once,
    pinned entries first and newer entries first among equally pinned ones,
    each with the category its categoryId names. *)
Theorem get_all_lists_own_entries (w : World) (user : string) :
  exists l,
    (exec prisma (Entries.get_all user) w).1 = (Returned (Respond 200 (JEntries l)), w) /\
    row <$> l ≡ₚ filter (fun e => userId e = user /\ isDeleted e = false) (rows (entries w)) /\
    StronglySorted listed_before (row <$> l) /\
    Forall (fun p => category p = categories w !! categoryId (row p)) l.
Proof.
  eexists. split; [unfold Entries.get_all; cbn -[select order_rows]; reflexivity|].
  rewrite rows_of_included, select_by_owner. split; [apply order_rows_perm|].
  split.
  - eapply strongly_sorted_impl; [apply precedes_listed_before|apply order_rows_sorted].
  - apply Forall_fmap, Forall_true. reflexivity.
Qed.

(** X7. [GET /trash] answers 200 with exactly the user's deleted entries,
    newer first; together with the listing of [GET /] they are the user's
    entries, each once. *)
Theorem trash_lists_deleted_entries (w : World) (user : string) :
  exists l_all l_trash,
    (exec prisma (Entries.get_all user) w).1.1 = Returned (Respond 200 (JEntries l_all)) /\
    (exec prisma (Entries.get_trash user) w).1
      = (Returned (Respond 200 (JEntries l_trash)), w) /\
    row <$> l_trash
      ≡ₚ filter (fun e => userId e = user /\ isDeleted e = true) (rows (entries w)) /\
    StronglySorted newer_first (row <$> l_trash) /\
    (row <$> l_all) ++ (row <$> l_trash)
      ≡ₚ filter (fun e => userId e = user) (rows (entries w)).
Proof.
  eexists _, _. split; [unfold Entries.get_all; cbn -[select order_rows]; reflexivity|].
  split; [unfold Entries.get_trash; cbn -[select order_rows]; reflexivity|].
  rewrite !rows_of_included, !select_by_owner. split; [apply order_rows_perm|].
  split.
  - eapply strongly_sorted_impl; [apply precedes_newer_first|apply order_rows_sorted].
  - rewrite !order_rows_perm. induction (rows (entries w)) as [|e l IH]; [done|].
    rewrite !filter_cons. destruct (isDeleted e) eqn:Hd; repeat case_decide; cbn;
      try tauto; try (exfalso; intuition congruence).
    + rewrite <- IH. symmetry. apply Permutation_middle.
    + by rewrite IH.
Qed.

(** ** Effect of a write on the table *)

Ltac finish_effect :=
  first
    [ by left
    | right;
      lazymatch goal with
      | |- exists i new, <[?k := _]> ?m = _ /\ _ =>
          eexists k, _; split; [reflexivity|];
          match goal with H : m !! k = _ |- _ => rewrite H end;
          cbn; repeat split; congruence
      end ].

Lemma serve_write_effect (r : WriteRequest) (w : World) :
  write_effect r (entries w) (entries (exec prisma (serve_write r) w).1.2).
Proof.
  destruct r as [user body|user i body|user i|user i|user body|user i body];
    cbn [serve_write]; unfold write_effect.
  - destruct body. unfold Entries.post. run; finish_effect.
  - destruct body. unfold Entries.patch. run; finish_effect.
  - unfold Entries.restore. run; finish_effect.
  - unfold Entries.soft_delete. run; finish_effect.
  - destruct body. unfold Notes.generate. run; finish_effect.
  - destruct body. unfold Notes.patch. run; finish_effect.
Qed.

(** X8. A write request leaves every entry alone that is not its target
    or does not belong to the requester: such a row is the same after the
    request. *)
Theorem other_rows_untouched (w : World) (r : WriteRequest) (j : string) (e : Entry) :
  entries w !! j = Some e ->
  target r <> Some j \/ requester r <> Some (userId e) ->
  entries (exec prisma (serve_write r) w).1.2 !! j = Some e.
Proof.
  intros He Hother.
  destruct (serve_write_effect r w) as [->|(i & new & -> & Heff)]; [done|].
  destruct (decide (i = j)) as [->|Hij]; [|by rewrite lookup_insert_ne].
  rewrite He in Heff. destruct Heff as (Ht & Hr & _). by destruct Hother.
Qed.

Lemma patch_applied (w : World) (user i : string) (body : EntryUpdateData.t) :
  let '(o, w', tr) := exec prisma (Entries.patch user i body) w in
  forall p, o = Returned (Respond 200 (JEntry p)) ->
  exists old,
    entries w !! i = Some old /\ userId old = user /\ isDeleted old = false /\
    entries w' = <[i := row p]> (entries w) /\
    categories w' = categories w /\
    p = with_include (categories w) true (row p) /\
    id (row p) = id old /\ userId (row p) = userId old /\
    createdAt (row p) = createdAt old /\ isDeleted (row p) = isDeleted old /\
    title (row p) = default (title old) (EntryUpdateData.title body) /\
    synopsis (row p) = default (synopsis old) (EntryUpdateData.synopsis body) /\
    content (row p) = default (content old) (EntryUpdateData.content body) /\
    categoryId (row p) = default (categoryId old) (EntryUpdateData.categoryId body) /\
    pinned (row p) = default (pinned old) (EntryUpdateData.pinned body) /\
    isPublic (row p)
      = default (isPublic old) (EntryUpdateData.isPublic body ≫= bool_written) /\
    match EntryUpdateData.isPublic body with
    | None => publicShareId (row p) = publicShareId old /\ probes tr = []
    | Some v =>
        if is_truthy v
        then exists t, publicShareId (row p) = Some t /\ is_share_token t /\
                       find_by_token (entries w) t = None
        else publicShareId (row p) = None /\ probes tr = []
    end.
Proof.
  destruct body as [t s c cat pn pub]. unfold Entries.patch. run.
  all: intros p Hrun; try discriminate Hrun.
  all: injection Hrun as <-.
  all: eexists; split; [reflexivity|].
  all: destruct t, s, c, pn; cbn.
  all: repeat (split; [first [assumption | reflexivity]|]).
  all: try (split; reflexivity).
  all: eexists; split; [reflexivity|]; split; assumption.
Qed.

(** X10. When [PATCH /:id] answers 200 with an entry, the entry was the
    user's and not deleted, the answer is the row now stored under the id,
    the fields given in the request have their new values and the other
    fields, with id, owner, creation time and the deleted flag, are as they
    were; without [isPublic] the token stays, with [isPublic] false it is
    cleared. *)
Theorem patch_updates_given_fields (w w' : World) (user i : string)
    (body : EntryUpdateData.t) (p : EntryWithCategory) :
  (exec prisma (Entries.patch user i body) w).1 = (Returned (Respond 200 (JEntry p)), w') ->
  exists old,
    entries w !! i = Some old /\ userId old = user /\ isDeleted old = false /\
    entries w' = <[i := row p]> (entries w) /\
    id (row p) = id old /\ userId (row p) = userId old /\
    createdAt (row p) = createdAt old /\ isDeleted (row p) = false /\
    title (row p) = default (title old) (EntryUpdateData.title body) /\
    synopsis (row p) = default (synopsis old) (EntryUpdateData.synopsis body) /\
    content (row p) = default (content old) (EntryUpdateData.content body) /\
    categoryId (row p) = default (categoryId old) (EntryUpdateData.categoryId body) /\
    pinned (row p) = default (pinned old) (EntryUpdateData.pinned body) /\
    isPublic (row p)
      = default (isPublic old) (EntryUpdateData.isPublic body ≫= bool_written) /\
    (EntryUpdateData.isPublic body = None -> publicShareId (row p) = publicShareId old) /\
    (EntryUpdateData.isPublic body = Some (Plain false) -> publicShareId (row p) = None).
Proof.
  intros Hrun. pose proof (patch_applied w user i body) as Happ.
  destruct (exec prisma (Entries.patch user i body) w) as [[o w1] tr].
  cbn in Hrun. injection Hrun as -> ->.
  destruct (Happ p eq_refl)
    as (old & He & Hu & Hd & Hw & _ & _ & Hid & Hus & Hc & Hdel & Ht & Hs & Hco & Hcat
        & Hpin & Hpub & Htok).
  exists old. rewrite Hd in Hdel.
  repeat (split; [assumption|]).
  split; intros Hbody; rewrite Hbody in Htok; by destruct Htok.
Qed.

Ltac no_category Hcat :=
  cbn in Hcat;
  match goal with H : categories _ !! _ = None |- _ => rewrite H in Hcat end;
  by destruct Hcat.

Lemma patch_answers (w : World) (user i : string) (old : Entry)
    (body : EntryUpdateData.t) :
  entries w !! i = Some old -> userId old = user -> isDeleted old = false ->
  category_ok w (EntryUpdateData.categoryId body) ->
  (forall t, EntryUpdateData.isPublic body <> Some (Other t)) ->
  conflicts (exec prisma (Entries.patch user i body) w).2 < MAX_ATTEMPTS ->
  exists p, (exec prisma (Entries.patch user i body) w).1.1
            = Returned (Respond 200 (JEntry p)).
Proof.
  intros He Hu Hd Hcat Hvalid. destruct body as [t s c cat pn pub].
  cbn in Hcat, Hvalid. unfold Entries.patch. run.
  all: try congruence.
  all: try no_category Hcat.
  all: try (exfalso; by eapply Hvalid).
  all: count_conflicts; intros Hc; try (unfold MAX_ATTEMPTS in *; lia).
  all: by eexists.
Qed.

Lemma unshare_makes_no_probe (w : World) (user i : string) (body : EntryUpdateData.t) :
  (forall v, EntryUpdateData.isPublic body = Some v -> is_truthy v = false) ->
  probes (exec prisma (Entries.patch user i body) w).2 = [].
Proof.
  intros Hpub. destruct body as [t s c cat pn pub]. cbn in Hpub.
  unfold Entries.patch. run; try reflexivity.
  all: first [congruence | by specialize (Hpub _ eq_refl)].
Qed.

(** X11. Setting [isPublic] to false through [PATCH /:id] on an entry of
    the user that is not soft-deleted, with a categoryId (if one is given)
    that names a category, answers 200, stores the row as private without
    token, makes no existence probe, and the public read of the entry then
    answers 404. *)
Theorem unshare_hides_entry (w : World) (user i : string) (old : Entry)
    (body : EntryUpdateData.t) :
  entries w !! i = Some old -> userId old = user -> isDeleted old = false ->
  EntryUpdateData.isPublic body = Some (Plain false) ->
  category_ok w (EntryUpdateData.categoryId body) ->
  let '(o, w1, tr) := exec prisma (Entries.patch user i body) w in
  (exists p, o = Returned (Respond 200 (JEntry p)) /\
             entries w1 !! i = Some (row p) /\
             isPublic (row p) = false /\ publicShareId (row p) = None) /\
  probes tr = [] /\
  (exec prisma (Entries.get_public i) w1).1.1
  = Returned (Respond 404 (JMessage "Entry not found or is private.")).
Proof.
  intros He Hu Hd Hpub Hcat.
  pose proof (patch_applied w user i body) as Happ.
  assert (Hvalid : forall t, EntryUpdateData.isPublic body <> Some (Other t))
    by (rewrite Hpub; discriminate).
  pose proof (patch_answers w user i old body He Hu Hd Hcat Hvalid) as Hans.
  pose proof (unshare_makes_no_probe w user i body) as Hprobes.
  destruct (exec prisma (Entries.patch user i body) w) as [[o w1] tr].
  cbn [fst snd] in Hans, Hprobes.
  rewrite Hpub in Hprobes. specialize (Hprobes ltac:(by intros v [= <-])).
  destruct Hans as [p ->].
  { unfold conflicts. rewrite Hprobes. cbn. unfold MAX_ATTEMPTS. lia. }
  destruct (Happ p eq_refl) as (old' & _ & _ & _ & Hw & _ & _ & _ & _ & _ & _ & _ & _
                                & _ & _ & _ & Hip & Htok).
  rewrite Hpub in Hip, Htok. cbn in Hip. destruct Htok as [Htok _].
  split; [|split; [exact Hprobes|]].
  - exists p. rewrite Hw, lookup_insert_eq. done.
  - unfold Entries.get_public. cbn. rewrite Hw, lookup_insert_eq. cbn.
    rewrite Hip. reflexivity.
Qed.

(** X12. Setting [isPublic] to true through [PATCH /:id] on an entry of
    the user that is not soft-deleted, with a categoryId (if one is given)
    that names a category, when fewer than 5 candidates collide, answers
    200 with the entry public under a token of 16 hexadecimal characters,
    and the public read of the entry then answers 200 with the same
    entry. *)
Theorem share_publishes_entry (w : World) (user i : string) (old : Entry)
    (body : EntryUpdateData.t) :
  entries w !! i = Some old -> userId old = user -> isDeleted old = false ->
  EntryUpdateData.isPublic body = Some (Plain true) ->
  category_ok w (EntryUpdateData.categoryId body) ->
  conflicts (exec prisma (Entries.patch user i body) w).2 < MAX_ATTEMPTS ->
  let '(o, w1, tr) := exec prisma (Entries.patch user i body) w in
  exists p t,
    o = Returned (Respond 200 (JEntry p)) /\
    isPublic (row p) = true /\ publicShareId (row p) = Some t /\ is_share_token t /\
    (exec prisma (Entries.get_public i) w1).1.1 = Returned (Respond 200 (JEntry p)).
Proof.
  intros He Hu Hd Hpub Hcat Hc.
  pose proof (patch_applied w user i body) as Happ.
  assert (Hvalid : forall t, EntryUpdateData.isPublic body <> Some (Other t))
    by (rewrite Hpub; discriminate).
  pose proof (patch_answers w user i old body He Hu Hd Hcat Hvalid Hc) as [p Hans].
  destruct (exec prisma (Entries.patch user i body) w) as [[o w1] tr].
  cbn [fst snd] in Hans. subst o.
  destruct (Happ p eq_refl) as (old' & _ & _ & _ & Hw & Hcats & Hp & _ & _ & _ & _ & _
                                & _ & _ & _ & _ & Hip & Htok).
  rewrite Hpub in Hip, Htok. cbn in Hip. destruct Htok as (t & Htok & Hshape & _).
  exists p, t. repeat (split; [done|]).
  unfold Entries.get_public. cbn. rewrite Hw, lookup_insert_eq. cbn.
  rewrite Hip. cbn. rewrite Hcats, <- Hp. reflexivity.
Qed.

(** ** Trash *)

Lemma soft_delete_run (w : World) (user i : string) (e : Entry) :
  entries w !! i = Some e -> userId e = user -> isDeleted e = false ->
  (exec prisma (Entries.soft_delete user i) w).1
  = (Returned (Respond 200 (JEntry (with_include (categories w) true
                                      (set_deleted true (now w) e)))),
     after_update i (set_deleted true (now w) e) w).
Proof.
  intros He Hu Hd. unfold Entries.soft_delete. run.
  all: try reflexivity; congruence.
Qed.

Lemma restore_run (w : World) (user i : string) (e : Entry) :
  entries w !! i = Some e -> userId e = user -> isDeleted e = true ->
  (exec prisma (Entries.restore user i) w).1
  = (Returned (Respond 200 (JEntry (with_include (categories w) true
                                      (set_deleted false (now w) e)))),
     after_update i (set_deleted false (now w) e) w).
Proof.
  intros He Hu Hd. unfold Entries.restore. run.
  all: try reflexivity; try congruence.
  all: rewrite Hd in *; discriminate.
Qed.

(** X13. Soft delete followed by restore: the soft delete answers 200
    with the entry marked deleted, [GET /:id] then answers 404, the restore
    answers 200, and the row is then the original one but for its
    [updatedAt]. *)
Theorem restore_undoes_soft_delete (w : World) (user i : string) (e : Entry) :
  entries w !! i = Some e -> userId e = user -> isDeleted e = false ->
  let w1 := (exec prisma (Entries.soft_delete user i) w).1.2 in
  let w2 := (exec prisma (Entries.restore user i) w1).1.2 in
  (exists p, (exec prisma (Entries.soft_delete user i) w).1.1
             = Returned (Respond 200 (JEntry p)) /\ isDeleted (row p) = true) /\
  (exec prisma (Entries.get_one user i) w1).1.1
    = Returned (Respond 404 (JMessage "Entry not found.")) /\
  (exec prisma (Entries.restore user i) w1).1.1
    = Returned (Respond 200 (JEntry (with_include (categories w) true
                  (update_row (S (now w)) UpdateData.empty e)))) /\
  entries w2 = <[i := update_row (S (now w)) UpdateData.empty e]> (entries w).
Proof.
  intros He Hu Hd. cbn zeta.
  rewrite (soft_delete_run w user i e He Hu Hd). cbn [fst snd].
  set (e1 := set_deleted true (now w) e).
  assert (He1 : entries (after_update i e1 w) !! i = Some e1)
    by apply lookup_insert_eq.
  split; [by eexists|]. split.
  - unfold Entries.get_one. cbn -[select]. unfold select, matches. cbn.
    rewrite lookup_insert_eq. cbn.
    rewrite bool_decide_eq_true_2 by done. reflexivity.
  - rewrite (restore_run (after_update i e1 w) user i e1 He1) by done.
    cbn [fst snd after_update entries categories now].
    assert (He2 : set_deleted false (S (now w)) e1
                  = update_row (S (now w)) UpdateData.empty e).
    { unfold set_deleted, update_row, e1. cbn. by rewrite Hd. }
    rewrite He2. split; [reflexivity|]. apply insert_insert_eq.
Qed.

(** X14. Soft-deleting a public entry does not unpublish it: the public
    read still answers 200 with the entry, now marked deleted, with its
    token, title and content. *)
Theorem soft_deleted_entry_stays_public (w : World) (user i : string) (e : Entry) :
  entries w !! i = Some e -> userId e = user -> isDeleted e = false ->
  isPublic e = true ->
  let w1 := (exec prisma (Entries.soft_delete user i) w).1.2 in
  exists p,
    (exec prisma (Entries.get_public i) w1).1.1 = Returned (Respond 200 (JEntry p)) /\
    isDeleted (row p) = true /\
    publicShareId (row p) = publicShareId e /\
    title (row p) = title e /\ content (row p) = content e.
Proof.
  intros He Hu Hd Hpub. cbn zeta.
  rewrite (soft_delete_run w user i e He Hu Hd). cbn [fst snd].
  unfold Entries.get_public. cbn. rewrite lookup_insert_eq. cbn.
  rewrite Hpub. cbn. eexists. split; [reflexivity|]. done.
Qed.

(** ** Bookmarks *)

Lemma bookmarks_all_run (w : World) (user : string) :
  (exec prisma (Entries.bookmarks_all user) w).1
  = (Returned (Respond 200 (JBookmarked
       (omap (fun b =>
                if bool_decide (bookmark_userId b = user)
                then with_include (categories w) true <$> entries w !! bookmark_entryId b
                else None)
             (bookmarks w)))), w).
Proof.
  unfold Entries.bookmarks_all. cbn.
  enough (Hl : forall l : list Bookmark,
    List.map snd
      (omap (fun b =>
               if bool_decide (bookmark_userId b = user)
               then (fun e => (b, with_include (categories w) true e))
                      <$> entries w !! bookmark_entryId b
               else None) l)
    = omap (fun b =>
              if bool_decide (bookmark_userId b = user)
              then with_include (categories w) true <$> entries w !! bookmark_entryId b
              else None) l) by (by rewrite Hl).
  induction l as [|b l IH]; cbn; [done|].
  case_bool_decide; cbn; [|exact IH].
  destruct (entries w !! bookmark_entryId b); cbn; [by rewrite IH|exact IH].
Qed.

Lemma bookmarks_all_lists (w : World) (user : string) :
  exists l,
    (exec prisma (Entries.bookmarks_all user) w).1
      = (Returned (Respond 200 (JBookmarked l)), w) /\
    forall p, p ∈ l <->
      exists b e, b ∈ bookmarks w /\ bookmark_userId b = user /\
                  entries w !! bookmark_entryId b = Some e /\
                  p = with_include (categories w) true e.
Proof.
  eexists. split; [apply bookmarks_all_run|].
  intros p. rewrite list_elem_of_omap. split.
  - intros (b & Hb & Hp). case_bool_decide as Hu; [|done].
    destruct (entries w !! bookmark_entryId b) as [e|] eqn:He; [|done].
    injection Hp as <-. by exists b, e.
  - intros (b & e & Hb & Hu & He & ->). exists b. split; [done|].
    rewrite bool_decide_eq_true_2 by done. by rewrite He.
Qed.

(** X15. The bookmarks listing does not look at the soft-delete flag: an
    entry that a user has bookmarked is still listed among that user's
    bookmarks, marked deleted, after its owner has soft-deleted it, while
    [GET /:id] answers the owner 404. *)
Theorem bookmark_outlives_soft_delete (w : World) (owner reader i : string) (e : Entry)
    (b : Bookmark) :
  entries w !! i = Some e -> userId e = owner -> isDeleted e = false ->
  b ∈ bookmarks w -> bookmark_userId b = reader -> bookmark_entryId b = i ->
  let w1 := (exec prisma (Entries.soft_delete owner i) w).1.2 in
  exists l p,
    (exec prisma (Entries.bookmarks_all reader) w1).1.1
      = Returned (Respond 200 (JBookmarked l)) /\
    p ∈ l /\ isDeleted (row p) = true /\
    title (row p) = title e /\ content (row p) = content e /\
    (exec prisma (Entries.get_one owner i) w1).1.1
      = Returned (Respond 404 (JMessage "Entry not found.")).
Proof.
  intros He Hu Hd Hb Hr Hi. cbn zeta.
  rewrite (soft_delete_run w owner i e He Hu Hd). cbn [fst snd].
  rewrite bookmarks_all_run. cbn [fst].
  eexists _, (with_include (categories w) true (set_deleted true (now w) e)).
  split; [reflexivity|]. split.
  { rewrite list_elem_of_omap. exists b. split; [exact Hb|].
    rewrite bool_decide_eq_true_2 by done. cbn. by rewrite Hi, lookup_insert_eq. }
  do 3 (split; [reflexivity|]).
  unfold Entries.get_one. cbn -[select]. unfold select, matches. cbn.
  rewrite lookup_insert_eq. cbn.
  rewrite bool_decide_eq_true_2 by done. reflexivity.
Qed.

(** ** Replies, reads and generated notes *)

(** X16. Every route answers every request: whatever the store, the
    random source and the note service answer or throw, the handler ends by
    sending a reply or by handing the error to [next]; no error escapes it
    and it is never cut short. *)
Theorem every_request_is_answered {W} (h : Handler W) (r : Request) (w : W) :
  exists reply, (exec h (serve r) w).1.1 = Returned reply.
Proof. apply answers_exec, serve_answers. Qed.

(** X17. The read routes only look up: whatever the collaborators
    answer, the only calls they make are lookups of entries by id or by
    filter and of bookmarks, never a write, a draw of random bytes, an
    existence probe or a call of the note service; and the reference store
    is the same after a read. *)
Theorem reads_only_look_up :
  (forall W (h : Handler W) r w,
     forallb (event_ok is_read_call) (exec h (serve_read r) w).2 = true) /\
  (forall r w, (exec prisma (serve_read r) w).1.2 = w).
Proof.
  split.
  - intros W h r w. apply makes_only_exec, serve_read_makes_only_reads.
  - intros r w. apply serve_read_world.
Qed.

(** X18. [POST /generate] never looks up the category it saves under:
    whatever the collaborators answer, its only calls are the note service,
    the allocator's draws and probes, and the create. *)
Theorem generate_makes_no_category_lookup {W} (h : Handler W) user body (w : W) :
  forallb (event_ok is_generate_call) (exec h (Notes.generate user body) w).2 = true.
Proof.
  apply makes_only_exec. unfold Notes.generate. discipline.
Qed.

(** X19. [POST /generate] without a user answers 401, and with [save]
    set and no categoryId (or an empty one) answers 400; in both cases
    nothing is called, not even the note service, and the store is not
    touched. *)
Theorem generate_guards {W} (h : Handler W) body (w : W) :
  exec h (Notes.generate None body) w
    = (Returned (Respond 401 (JError "Unauthorized")), w, []) /\
  forall user,
    truthy (GenerateBody.save body) = true ->
    nonempty (GenerateBody.categoryId body) = None ->
    exec h (Notes.generate (Some user) body) w
      = (Returned (Respond 400 (JError "Saving requires a categoryId.")), w, []).
Proof.
  split; [reflexivity|]. intros user Hsave Hcat. unfold Notes.generate.
  cbn zeta. rewrite Hsave, Hcat. reflexivity.
Qed.

(** X20. [POST /generate] without [save] makes one call, to the note
    service with the truthy fields of the request, and answers 200 with the
    note and [saved: null], or 500 when the service fails; nothing else is
    called, whatever the other fields of the request are. *)
Theorem generate_without_saving {W} (h : Handler W) user body (w : W) :
  truthy (GenerateBody.save body) = false ->
  exec h (Notes.generate (Some user) body) w
    = let ask := GenerateFullNote (note_options body) in
      (Returned
         match (h _ ask w).1 with
         | Ok note => Respond 200 (JGenerated note None)
         | Fail _ => Respond 500 (JError "Failed to generate or save note.")
         end,
       (h _ ask w).2, [Ev ask (h _ ask w).1]).
Proof.
  intros Hsave. unfold Notes.generate, note_options. cbn zeta. rewrite Hsave. cbn.
  destruct (h _ _ w) as [[note|e] w1]; reflexivity.
Qed.

(** X21. When [POST /generate] answers 200 with a saved entry, the note is
    the one the service returned for the options of the request, the
    category exists, and the row stored under the new id has the note as
    content, the title of the request or else the fallback title cut from
    the note, the synopsis of the request or else that title, the user as
    owner, and a token exactly when [isPublic] was set. *)
Theorem generate_saves_note (w w' : World) (user : option string) (body : GenerateBody.t)
    (note i : string) (token : option string) :
  (exec prisma (Notes.generate user body) w).1
    = (Returned (Respond 200 (JGenerated note (Some (i, token)))), w') ->
  exists u c,
    user = Some u /\ nonempty (GenerateBody.categoryId body) = Some c /\
    ai w (note_options body) = Ok note /\
    is_Some (categories w !! c) /\
    entries w !! i = None /\
    (is_Some token <-> truthy (GenerateBody.isPublic body) = true) /\
    entries w' =
      <[i := {| id := i;
                title := default (fallbackTitle note) (GenerateBody.title body);
                synopsis := default (default (fallbackTitle note) (GenerateBody.title body))
                                    (GenerateBody.synopsis body);
                content := note;
                userId := u;
                categoryId := c;
                pinned := false;
                isPublic := truthy (GenerateBody.isPublic body);
                publicShareId := token;
                isDeleted := false;
                createdAt := now w;
                updatedAt := now w |}]> (entries w).
Proof.
  destruct body as [t s au to len sv cat pub].
  unfold Notes.generate, note_options, fallbackTitle.
  run.
  all: cbn [fst]; intros Hrun; try discriminate Hrun.
  all: injection Hrun as <- <- <- <-.
  all: eexists _, _; repeat (split; [first [eassumption | reflexivity | by eexists]|]).
  all: try (split; [cbn; by split; intros; first [done | by eexists | by destruct H]|]).
  all: try reflexivity.
Qed.

(** X22. On the reference store, where [categoryId] is a foreign key,
    [POST /generate] with [save] and a categoryId that names no category
    answers 500 and stores no entry (where [POST /] answers 404). *)
Theorem generate_reports_unknown_category_as_failure (w : World) (user : string)
    (body : GenerateBody.t) (c : string) :
  truthy (GenerateBody.save body) = true ->
  nonempty (GenerateBody.categoryId body) = Some c ->
  categories w !! c = None ->
  exists w',
    (exec prisma (Notes.generate (Some user) body) w).1
      = (Returned (Respond 500 (JError "Failed to generate or save note.")), w') /\
    entries w' = entries w.
Proof.
  destruct body as [t s au to len sv cat pub].
  unfold Notes.generate. cbn [GenerateBody.save GenerateBody.categoryId].
  intros Hsave Hcat Hnone. run.
  all: try (eexists; split; reflexivity).
  all: try congruence.
  rewrite andb_false_r in *. discriminate.
Qed.

(** ** Encoding and candidates of the allocator *)

(** X23. The hexadecimal encoding of the random bytes loses nothing:
    different byte sequences give different tokens. *)
Theorem toString_hex_injective (a b : list byte) :
  a <> b -> toString_hex a <> toString_hex b.
Proof.
  intros Hne Heq. apply Hne. clear Hne.
  revert b Heq. induction a as [|x a IH]; intros [|y b] Heq; try discriminate; [done|].
  cbn [toString_hex] in Heq. injection Heq as Hhi Hlo Hrest.
  pose proof (hex_byte_decodes x) as Hx. pose proof (hex_byte_decodes y) as Hy.
  apply (f_equal hex_value) in Hhi, Hlo.
  rewrite Hhi, Hlo, Hy in Hx. injection Hx as ->. f_equal. by apply IH.
Qed.

Lemma while_attempts_last_probe {W} (h : Handler W) (fuel a : nat) (w w' : W) c tr :
  exec h (while_attempts fuel a) w = (Returned c, w', tr) ->
  exists earlier,
    probes tr = ((fun t => (t, true)) <$> earlier) ++ [(c, false)] /\
    a + length earlier < MAX_ATTEMPTS.
Proof.
  revert a w tr. induction fuel as [|fuel IH]; intros a w tr; [discriminate|].
  destruct (decide (a < MAX_ATTEMPTS)) as [Hlt|Hge].
  - rewrite while_attempts_step by done.
    destruct (h _ (RandomBytes 8) w) as [[buf|e] w1]; [|discriminate].
    cbn zeta.
    destruct (h _ (EntryFindUnique (ByPublicShareId (toString_hex buf)) false) w1)
      as [[[x|]|e] w2]; try discriminate.
    + destruct (exec h (while_attempts fuel (a + 1)) w2) as [[o w3] tr1] eqn:Hrest.
      intros [= -> -> <-].
      destruct (IH _ _ _ Hrest) as (earlier & Hp & Hlen).
      exists (toString_hex buf :: earlier). split.
      * change (probes (_ :: _ :: tr1)) with ((toString_hex buf, true) :: probes tr1).
        by rewrite Hp.
      * cbn. unfold MAX_ATTEMPTS in *. lia.
    + intros [= <- <- <-]. exists []. split; [reflexivity|]. cbn. unfold MAX_ATTEMPTS in *. lia.
  - rewrite while_attempts_done by lia. discriminate.
Qed.

Lemma prisma_while_attempts_draws (fuel a : nat) (w : World) :
  let '(o, w', tr) := exec prisma (while_attempts fuel a) w in
  w' = advance (8 * length (probes tr)) w /\
  (probes tr).*1 =
    (fun k => toString_hex (List.map (entropy w) (seq (entropy_used w + 8 * k) 8)))
      <$> seq 0 (length (probes tr)).
Proof.
  revert a w. induction fuel as [|fuel IH]; intros a w.
  { cbn. split; [by rewrite advance_0|done]. }
  destruct (decide (a < MAX_ATTEMPTS)) as [Hlt|Hge].
  - rewrite while_attempts_step by done. cbn [prisma]. cbn zeta.
    change (entries (mkWorld (entries w) _ _ _ _ _ _ _ _)) with (entries w).
    change (mkWorld (entries w) (categories w) (bookmarks w) (entropy w)
              (entropy_used w + 8) (fresh_ids w) (ids_used w) (now w) (ai w))
      with (advance 8 w).
    set (buf := List.map (entropy w) (seq (entropy_used w) 8)).
    destruct (find_by_token (entries w) (toString_hex buf)) as [x|] eqn:Hfind;
      cbn [fmap option_fmap option_map].
    + specialize (IH (a + 1) (advance 8 w)).
      destruct (exec prisma (while_attempts fuel (a + 1)) (advance 8 w))
        as [[o1 w1] tr1].
      destruct IH as [-> Hp].
      change (probes (_ :: _ :: tr1)) with ((toString_hex buf, true) :: probes tr1).
      cbn [length]. split.
      * rewrite advance_advance. f_equal. lia.
      * cbn [fmap list_fmap seq]. f_equal.
        { subst buf. by rewrite Nat.mul_0_r, Nat.add_0_r. }
        rewrite Hp. rewrite <- seq_shift, <- list_fmap_compose.
        apply list_fmap_ext. intros k0 k Hk. unfold compose. cbn [advance entropy entropy_used]. replace (entropy_used w + 8 + 8 * k) with (entropy_used w + 8 * S k) by lia. reflexivity.
    + cbn. split; [reflexivity|]. subst buf. by rewrite Nat.add_0_r.
  - rewrite while_attempts_done by lia. cbn. split; [by rewrite advance_0|done].
Qed.

(** X24. Whatever the collaborators answer, a token the allocator returns
    is the last candidate it probed, the store reported it free, and every
    candidate probed before it, at most 4, was reported taken. *)
Theorem allocator_stops_at_first_free {W : Type} (h : Handler W) (w w' : W) (c : string)
    (tr : list Event) :
  exec h generateUniqueShareId w = (Returned c, w', tr) ->
  exists earlier,
    probes tr = ((fun t => (t, true)) <$> earlier) ++ [(c, false)] /\
    length earlier < 5.
Proof.
  intros Hexec. apply while_attempts_last_probe in Hexec as (earlier & Hp & Hlen).
  exists earlier. split; [exact Hp|]. unfold MAX_ATTEMPTS in Hlen. lia.
Qed.

(** X25. Against the reference store each attempt of the allocator uses 8
    fresh bytes of the random source: after k probes 8k bytes were drawn,
    and the k-th candidate is the encoding of the k-th block of 8 bytes. *)
Theorem allocator_draws_eight_bytes_per_probe (w : World) :
  let '(o, w', tr) := exec prisma generateUniqueShareId w in
  w' = advance (8 * length (probes tr)) w /\
  (probes tr).*1 =
    (fun k => toString_hex (List.map (entropy w) (seq (entropy_used w + 8 * k) 8)))
      <$> seq 0 (length (probes tr)).
Proof. apply (prisma_while_attempts_draws (S MAX_ATTEMPTS) 0 w). Qed.

(** ** The fallback title and the file name of the download *)

Lemma first_line_chars s : Forall (fun c => c <> "010"%char) (chars (Js.first_line s)).
Proof.
  induction s as [|c s IH]; cbn; [constructor|].
  destruct (Ascii.eqb_spec c "010"); cbn; [constructor|]. by constructor.
Qed.

Lemma drop_while_chars p s : chars (Js.drop_while p s) `sublist_of` chars s.
Proof.
  induction s as [|c s IH]; cbn; [constructor|].
  destruct (p c); [by apply sublist_cons|reflexivity].
Qed.

Lemma strip_marker_chars s : chars (Js.strip_marker s) `sublist_of` chars s.
Proof.
  unfold Js.strip_marker. destruct s as [|c s]; [reflexivity|].
  destruct (Js.is_marker c); [|reflexivity].
  etrans; apply drop_while_chars.
Qed.

Lemma trim_end_chars s : chars (Js.trim_end s) `sublist_of` chars s.
Proof.
  induction s as [|c s IH]; cbn; [constructor|].
  destruct (Js.trim_end s) as [|c' s'].
  - destruct (Js.is_space c); cbn.
    + apply sublist_nil_l.
    + apply sublist_skip, sublist_nil_l.
  - cbn. by apply sublist_skip.
Qed.

Lemma substring0_chars n s : chars (Js.substring0 n s) `sublist_of` chars s.
Proof.
  unfold Js.substring0. revert n. induction s as [|c s IH]; intros [|n]; cbn.
  - constructor.
  - constructor.
  - apply sublist_nil_l.
  - apply sublist_skip, IH.
Qed.

Lemma substring0_length n s : String.length (Js.substring0 n s) <= n.
Proof.
  unfold Js.substring0. revert n. induction s as [|c s IH]; intros [|n]; cbn; try lia.
  specialize (IH n). lia.
Qed.

Lemma fallbackTitle_chars note :
  chars (fallbackTitle note) `sublist_of` chars (Js.first_line note).
Proof.
  unfold fallbackTitle, Js.trim.
  etrans; [apply substring0_chars|]. etrans; [apply trim_end_chars|].
  etrans; [apply drop_while_chars|]. apply strip_marker_chars.
Qed.

Lemma drop_while_head p s c rest : Js.drop_while p s = String c rest -> p c = false.
Proof.
  induction s as [|c' s IH]; cbn; [done|].
  destruct (p c') eqn:Hp; [exact IH|]. by intros [= <- <-].
Qed.

Lemma trim_end_head s c rest :
  Js.trim_end s = String c rest -> exists rest', s = String c rest'.
Proof.
  destruct s as [|c' s]; cbn; [done|].
  destruct (Js.trim_end s); [destruct (Js.is_space c')|].
  - done.
  - intros [= <- <-]. by eexists.
  - intros [= <- <-]. by eexists.
Qed.

Lemma substring0_head n s c rest :
  Js.substring0 n s = String c rest -> exists rest', s = String c rest'.
Proof.
  unfold Js.substring0. destruct s as [|c' s], n as [|n]; cbn; try done.
  intros [= <- <-]. by eexists.
Qed.

(** X26. The fallback title of a generated note has at most 100
    characters, contains no line feed and does not begin with white space;
    it is empty when the note begins with a line feed. *)
Theorem fallback_title_shape (note : string) :
  String.length (fallbackTitle note) <= 100 /\
  Forall (fun c => c <> "010"%char) (chars (fallbackTitle note)) /\
  (forall c rest, fallbackTitle note = String c rest -> Js.is_space c = false) /\
  (forall rest, fallbackTitle (String "010" rest) = "").
Proof.
  split; [apply substring0_length|].
  split.
  { apply Forall_forall. intros c Hc.
    eapply (proj1 (Forall_forall _ _) (first_line_chars note)), elem_of_sublist;
      [exact Hc|apply fallbackTitle_chars]. }
  split; [|reflexivity].
  intros c rest Hc. unfold fallbackTitle in Hc.
  apply substring0_head in Hc as [r1 Hc]. unfold Js.trim in Hc.
  apply trim_end_head in Hc as [r2 Hc]. by apply drop_while_head in Hc.
Qed.

Lemma replace_non_alnum_length s :
  String.length (SharedNotePage.replace_non_alnum s) = String.length s.
Proof. induction s as [|c s IH]; cbn; [done|]. by rewrite IH. Qed.

Lemma replace_non_alnum_get s n c :
  String.get n s = Some c ->
  String.get n (SharedNotePage.replace_non_alnum s) = Some (if SharedNotePage.is_alnum c then c else "_"%char).
Proof.
  revert n. induction s as [|c' s IH]; intros [|n]; cbn; try done.
  - by intros [= ->].
  - apply IH.
Qed.

Lemma append_length (s1 s2 : string) :
  String.length (s1 ++ s2) = String.length s1 + String.length s2.
Proof.
  induction s1 as [|c s1 IH]; [done|].
  change (String c s1 ++ s2)%string with (String c (s1 ++ s2)). cbn. by rewrite IH.
Qed.

Lemma append_chars (s1 s2 : string) : chars (s1 ++ s2) = chars s1 ++ chars s2.
Proof.
  induction s1 as [|c s1 IH]; [done|].
  change (String c s1 ++ s2)%string with (String c (s1 ++ s2)). unfold chars in *. cbn. by rewrite IH.
Qed.

Lemma append_get (s1 s2 : string) n c :
  String.get n s1 = Some c -> String.get n (s1 ++ s2) = Some c.
Proof.
  revert n. induction s1 as [|c' s1 IH]; intros n; [done|].
  change (String c' s1 ++ s2)%string with (String c' (s1 ++ s2)).
  destruct n as [|n]; cbn; [done|apply IH].
Qed.

(** X27. The file name of the PDF download is the title with every
    character other than an ASCII letter or digit replaced by an underscore,
    position by position, followed by ".pdf": it has 4 characters more than
    the title and consists of letters, digits, underscores and dots only;
    replacing twice changes nothing more. *)
Theorem filename_is_safe (title : string) :
  String.length (SharedNotePage.filename title) = String.length title + 4 /\
  Forall (fun c => SharedNotePage.is_alnum c = true \/ c = "_"%char \/ c = "."%char)
         (chars (SharedNotePage.filename title)) /\
  (forall n c, String.get n title = Some c ->
     String.get n (SharedNotePage.filename title) = Some (if SharedNotePage.is_alnum c then c else "_"%char)) /\
  SharedNotePage.replace_non_alnum (SharedNotePage.replace_non_alnum title) = SharedNotePage.replace_non_alnum title.
Proof.
  unfold SharedNotePage.filename. split.
  { by rewrite append_length, replace_non_alnum_length. }
  split.
  { rewrite append_chars. apply Forall_app. split.
    - induction title as [|c s IH]; cbn; constructor; [|exact IH].
      destruct (SharedNotePage.is_alnum c) eqn:Hc; [by left|right; by left].
    - repeat constructor; by left. }
  split.
  { intros n c Hget. by apply append_get, replace_non_alnum_get. }
  induction title as [|c s IH]; cbn; [done|]. rewrite IH.
  destruct (SharedNotePage.is_alnum c) eqn:Hc; [by rewrite Hc|reflexivity].
Qed.

(** * Concrete runs *)

Lemma republish_policy_witness :
  exists new t',
    entries (exec prisma (Entries.patch "u1" "e1" reshare_entry) shared_world).1.2 !! "e1"
      = Some new /\
    publicShareId new = Some t' /\ t' <> "abc123".
Proof.
  destruct (republish_policy shared_world "u1" "e1" shared_entry "abc123")
    as [Hentries _]; [reflexivity..|].
  specialize (Hentries reshare_entry eq_refl).
  destruct (exec prisma (Entries.patch "u1" "e1" reshare_entry) shared_world)
    as [[o w'] tr] eqn:Hexec.
  destruct Hentries as (new & t' & Hnew & _ & Htok & Hne & _).
  - vm_compute in Hexec. injection Hexec as <- _ _. by eexists.
  - exists new, t'. done.
Defined.

(** Scenario 1: nothing is bound, the first probe succeeds. *)
Example allocate_in_empty_store :
  (exec prisma generateUniqueShareId empty_world).1.1 = Returned "2a2a2a2a2a2a2a2a" /\
  probes (exec prisma generateUniqueShareId empty_world).2 = [("2a2a2a2a2a2a2a2a", false)].
Proof. split; vm_compute; reflexivity. Qed.

Lemma allocator_exhaustion_witness :
  exists tr,
    exec prisma generateUniqueShareId colliding_world
    = (Thrown exhausted, advance 40 colliding_world, tr) /\
    probes tr = replicate 5 ("0000000000000000", true).
Proof.
  destruct (proj1 (allocator_exhaustion prisma colliding_world)
              (replicate 5 ("0000000000000000", true)) (advance 40 colliding_world))
    as (tr & Hexec & Hprobes & _).
  - vm_compute. reflexivity.
  - reflexivity.
  - exists tr. split; [exact Hexec|exact Hprobes].
Defined.

Lemma allocator_returns_kth_witness :
  exists tr,
    exec prisma generateUniqueShareId one_collision_world
    = (Returned "ffffffffffffffff", advance 16 one_collision_world, tr) /\
    probes tr = [("0000000000000000", true); ("ffffffffffffffff", false)].
Proof.
  destruct (allocator_returns_kth prisma one_collision_world (advance 16 one_collision_world) 2
              [("0000000000000000", true); ("ffffffffffffffff", false)])
    as [(c & tr & Hk & Hexec & Hprobes & _) _].
  - exact prisma_random_source_ok.
  - lia.
  - vm_compute. reflexivity.
  - reflexivity.
  - exists tr. cbn in Hk. injection Hk as <-. split; [exact Hexec|exact Hprobes].
Defined.

Lemma shared_world_share_invariant : share_invariant (entries shared_world).
Proof.
  intros i e.
  change (entries shared_world) with ({[ "e1" := shared_entry ]} : gmap string Entry).
  intros [<- <-]%lookup_singleton_Some. split; done.
Qed.

Lemma shared_world_unique_tokens : unique_tokens (entries shared_world).
Proof.
  intros i j e1 e2 token.
  change (entries shared_world) with ({[ "e1" := shared_entry ]} : gmap string Entry).
  intros [<- _]%lookup_singleton_Some [<- _]%lookup_singleton_Some _ _.
  reflexivity.
Qed.

Lemma shared_world_ids_are_keys : ids_are_keys (entries shared_world).
Proof.
  intros i e.
  change (entries shared_world) with ({[ "e1" := shared_entry ]} : gmap string Entry).
  intros [<- <-]%lookup_singleton_Some. reflexivity.
Qed.

Lemma session_plain : Forall plain session.
Proof. repeat constructor; discriminate. Qed.

Lemma share_invariant_preserved_witness :
  Forall plain session /\
  share_invariant (entries shared_world) /\
  forall i e,
    entries (serve_all prisma session shared_world) !! i = Some e ->
    (isPublic e = true -> publicShareId e <> None) /\
    (isPublic e = false -> publicShareId e = None).
Proof.
  split; [exact session_plain|]. split; [exact shared_world_share_invariant|].
  exact (share_invariant_preserved shared_world session session_plain
           shared_world_share_invariant).
Defined.

(** C2, as worded, fails in two ways on the entry shared under abc123.
    The entries update that sends [{ set: false }] as [isPublic] finds the
    value truthy, allocates a token, and writes the row private with that
    token.  And when the notes update that sets [isPublic] to true has read
    the row and the entries update that sets it to false is served before
    the notes update goes on, the notes update, which saw a token, writes
    [isPublic] alone: the row ends public without token. *)
Lemma share_invariant_broken :
  (entries (exec prisma (Entries.patch "u1" "e1" unshare_by_object) shared_world).1.2
     !! "e1") ≫= (fun e => Some (isPublic e, publicShareId e))
  = Some (false, Some "0000000000000000") /\
  (entries (interleave prisma read_then_overtaken
              (Notes.patch "u1" "e1" reshare_note)
              (Entries.patch "u1" "e1" unshare_entry) shared_world).2
     !! "e1") ≫= (fun e => Some (isPublic e, publicShareId e))
  = Some (true, None) /\
  ~ mutations_keep_share_invariant /\
  ~ mutations_in_flight_keep_share_invariant.
Proof.
  split; [vm_compute; reflexivity|]. split; [vm_compute; reflexivity|]. split.
  - intros Hclaim.
    specialize (Hclaim shared_world (PatchEntry "u1" "e1" unshare_by_object)
                  shared_world_share_invariant "e1").
    cbn [serve_write] in Hclaim.
    destruct (entries (exec prisma (Entries.patch "u1" "e1" unshare_by_object)
                         shared_world).1.2 !! "e1") as [e|] eqn:He;
      vm_compute in He; [|discriminate He].
    injection He as <-. destruct (Hclaim _ eq_refl) as [_ Hprivate].
    discriminate (Hprivate eq_refl).
  - intros Hclaim.
    specialize (Hclaim shared_world read_then_overtaken
                  (PatchNote "u1" "e1" reshare_note) (PatchEntry "u1" "e1" unshare_entry)
                  ltac:(discriminate) ltac:(discriminate)
                  shared_world_share_invariant "e1").
    cbn [serve_write] in Hclaim.
    destruct (entries (interleave prisma read_then_overtaken
                         (Notes.patch "u1" "e1" reshare_note)
                         (Entries.patch "u1" "e1" unshare_entry) shared_world).2 !! "e1")
      as [e|] eqn:He; vm_compute in He; [|discriminate He].
    injection He as <-. destruct (Hclaim _ eq_refl) as [Hpublic _].
    by apply Hpublic.
Qed.

Lemma unique_tokens_preserved_witness :
  unique_tokens (entries shared_world) /\
  forall i j e1 e2 token,
    entries (serve_all prisma session shared_world) !! i = Some e1 ->
    entries (serve_all prisma session shared_world) !! j = Some e2 ->
    publicShareId e1 = Some token ->
    publicShareId e2 = Some token ->
    i = j.
Proof.
  split; [exact shared_world_unique_tokens|].
  exact (unique_tokens_preserved shared_world session shared_world_unique_tokens).
Defined.

(** The session ends with two public entries under two tokens. *)
Example session_tokens :
  (fun p => (p.1, publicShareId p.2))
    <$> map_to_list (entries (serve_all prisma session shared_world))
  = [("e1", Some "ffffffffffffffff"); ("a", Some "0000000000000000")].
Proof. vm_compute. reflexivity. Qed.

Lemma exhaustion_commits_nothing_witness :
  conflicts (exec prisma (Entries.post "u1" public_post) colliding_world).2 = 5 /\
  entries (exec prisma (Entries.post "u1" public_post) colliding_world).1.2
  = entries colliding_world /\
  (exec prisma (Entries.post "u1" public_post) colliding_world).1.1
  = Returned (Next exhausted).
Proof.
  assert (Hc : conflicts (exec prisma (serve_write (PostEntry "u1" public_post))
                            colliding_world).2 = MAX_ATTEMPTS)
    by (vm_compute; reflexivity).
  split; [exact Hc|].
  pose proof (exhaustion_commits_nothing colliding_world (PostEntry "u1" public_post) Hc)
    as Hthm.
  cbn [serve_write] in Hthm.
  destruct (exec prisma (Entries.post "u1" public_post) colliding_world)
    as [[o w'] tr] eqn:Hexec.
  destruct Hthm as (Hentries & _ & _ & _ & Ho).
  split; [exact Hentries|].
  cbn. destruct Ho as [->|[msg ->]]; [reflexivity|].
  vm_compute in Hexec. discriminate Hexec.
Defined.

Lemma public_read_is_by_id_witness :
  ids_are_keys (entries shared_world) /\
  exists p,
    (exec prisma (Entries.get_public "e1") shared_world).1.1
    = Returned (Respond 200 (JEntry p)) /\
    row p = shared_entry.
Proof.
  split; [exact shared_world_ids_are_keys|].
  pose proof (public_read_is_by_id shared_world "e1" shared_world_ids_are_keys) as Hthm.
  destruct (exec prisma (Entries.get_public "e1") shared_world) as [[o w'] tr].
  destruct Hthm as (_ & Hiff & Hrow & _).
  destruct (proj1 Hiff) as [p ->].
  - exists shared_entry. split; [|done].
    apply elem_of_rows. exists "e1". reflexivity.
  - exists p. split; [reflexivity|].
    destruct (Hrow p eq_refl) as [Hp _]. vm_compute in Hp. by injection Hp.
Defined.

(** The token of the shared entry is not a key of the public read. *)
Example public_read_by_token_is_not_found :
  (exec prisma (Entries.get_public "abc123") shared_world).1.1
  = Returned (Respond 404 (JMessage "Entry not found or is private.")).
Proof. vm_compute. reflexivity. Qed.


(** ** Runs of the further properties *)

Lemma post_requires_fields_witness :
  exec prisma (Entries.post "u1" untitled_post) empty_world
  = (Returned (Respond 400
       (JMessage "Title, synopsis, content, and categoryId are required.")),
     empty_world, []).
Proof.
  apply (post_requires_fields prisma "u1" untitled_post empty_world).
  left. reflexivity.
Defined.

Lemma unknown_category_is_rejected_witness :
  (exec prisma (Entries.post "u1" orphan_post) shared_world).1
  = (Returned (Respond 404 (JMessage "Invalid categoryId provided.")), shared_world).
Proof.
  destruct (unknown_category_is_rejected shared_world "u1") as [Hpost _].
  apply (Hpost orphan_post "c9"); [reflexivity|reflexivity|by eexists..].
Defined.


(** The segment trash is not an id: the request is answered by
    [GET /trash], with the list of the user's deleted entries. *)
Example get_trash_is_not_an_id :
  (exec prisma (serve (Read (GetEntry "u1" "trash"))) trash_world).1.1
  = Returned (Respond 200 (JEntries
      [with_include (categories trash_world) true trashed_entry])).
Proof. vm_compute. reflexivity. Qed.

Lemma trash_guards_witness :
  (exec prisma (Entries.get_one "u1" "e2") trash_world).1
  = (Returned (Respond 404 (JMessage "Entry not found.")), trash_world).
Proof.
  destruct (trash_guards trash_world "u1" "e2" trashed_entry) as [Hdeleted _];
    [reflexivity..|].
  apply Hdeleted. reflexivity.
Defined.

Lemma post_then_get_witness :
  exists p w',
    (exec prisma (Entries.post "u1" public_post) shared_world).1
      = (Returned (Respond 201 (JEntry p)), w') /\
    (exec prisma (Entries.get_one "u1" (id (row p))) w').1
      = (Returned (Respond 200 (JEntry p)), w').
Proof.
  assert (Hrun : exists p w',
            (exec prisma (Entries.post "u1" public_post) shared_world).1
            = (Returned (Respond 201 (JEntry p)), w'))
    by (vm_compute; by eexists _, _).
  destruct Hrun as (p & w' & Hrun). exists p, w'. split; [exact Hrun|].
  apply (post_then_get shared_world w' "u1" public_post p Hrun).
Defined.

Lemma other_rows_untouched_witness :
  entries (exec prisma (serve_write (PatchEntry "u2" "e1" reshare_entry)) shared_world).1.2
    !! "e1" = Some shared_entry.
Proof.
  apply (other_rows_untouched shared_world (PatchEntry "u2" "e1" reshare_entry) "e1"
           shared_entry).
  - reflexivity.
  - right. discriminate.
Defined.

Lemma patch_updates_given_fields_witness :
  exists p w',
    (exec prisma (Entries.patch "u1" "e1" unshare_entry) shared_world).1
      = (Returned (Respond 200 (JEntry p)), w') /\
    title (row p) = "Groceries" /\ publicShareId (row p) = None.
Proof.
  assert (Hrun : exists p w',
            (exec prisma (Entries.patch "u1" "e1" unshare_entry) shared_world).1
            = (Returned (Respond 200 (JEntry p)), w'))
    by (vm_compute; by eexists _, _).
  destruct Hrun as (p & w' & Hrun). exists p, w'. split; [exact Hrun|].
  destruct (patch_updates_given_fields _ _ _ _ _ _ Hrun)
    as (old & Hold & _ & _ & _ & _ & _ & _ & _ & Htitle & _ & _ & _ & _ & _ & _ & Htoken).
  vm_compute in Hold. injection Hold as <-.
  split; [exact Htitle|]. apply Htoken. reflexivity.
Defined.

Lemma unshare_hides_entry_witness :
  (exec prisma (Entries.get_public "e1")
     (exec prisma (Entries.patch "u1" "e1" unshare_entry) shared_world).1.2).1.1
  = Returned (Respond 404 (JMessage "Entry not found or is private.")).
Proof.
  pose proof (unshare_hides_entry shared_world "u1" "e1" shared_entry unshare_entry
                eq_refl eq_refl eq_refl eq_refl I) as Hthm.
  destruct (exec prisma (Entries.patch "u1" "e1" unshare_entry) shared_world)
    as [[o w1] tr].
  exact (proj2 (proj2 Hthm)).
Defined.

Lemma share_publishes_entry_witness :
  exists p,
    (exec prisma (Entries.get_public "e1")
       (exec prisma (Entries.patch "u1" "e1" reshare_entry) shared_world).1.2).1.1
    = Returned (Respond 200 (JEntry p)) /\
    isPublic (row p) = true.
Proof.
  assert (Hc : conflicts (exec prisma (Entries.patch "u1" "e1" reshare_entry)
                            shared_world).2 < MAX_ATTEMPTS)
    by (vm_compute; lia).
  pose proof (share_publishes_entry shared_world "u1" "e1" shared_entry reshare_entry
                eq_refl eq_refl eq_refl eq_refl I Hc) as Hthm.
  destruct (exec prisma (Entries.patch "u1" "e1" reshare_entry) shared_world)
    as [[o w1] tr].
  destruct Hthm as (p & t & _ & Hpublic & _ & _ & Hget).
  exists p. split; [exact Hget|exact Hpublic].
Defined.

Lemma restore_undoes_soft_delete_witness :
  entries (exec prisma (Entries.restore "u1" "e1")
             (exec prisma (Entries.soft_delete "u1" "e1") shared_world).1.2).1.2
  = <["e1" := update_row 3 UpdateData.empty shared_entry]> (entries shared_world).
Proof.
  exact (proj2 (proj2 (proj2
           (restore_undoes_soft_delete shared_world "u1" "e1" shared_entry
              eq_refl eq_refl eq_refl)))).
Defined.

Lemma soft_deleted_entry_stays_public_witness :
  exists p,
    (exec prisma (Entries.get_public "e1")
       (exec prisma (Entries.soft_delete "u1" "e1") shared_world).1.2).1.1
    = Returned (Respond 200 (JEntry p)) /\
    isDeleted (row p) = true /\ publicShareId (row p) = Some "abc123".
Proof.
  destruct (soft_deleted_entry_stays_public shared_world "u1" "e1" shared_entry
              eq_refl eq_refl eq_refl eq_refl)
    as (p & Hget & Hdeleted & Htoken & _).
  exists p. split; [exact Hget|]. split; [exact Hdeleted|exact Htoken].
Defined.

Lemma bookmark_outlives_soft_delete_witness :
  exists l p,
    (exec prisma (Entries.bookmarks_all "u2")
       (exec prisma (Entries.soft_delete "u1" "e1") reader_world).1.2).1.1
    = Returned (Respond 200 (JBookmarked l)) /\
    p ∈ l /\ isDeleted (row p) = true.
Proof.
  destruct (bookmark_outlives_soft_delete reader_world "u1" "u2" "e1" shared_entry
              (mkBookmark "u2" "e1"))
    as (l & p & Hlist & Hin & Hdeleted & _); [reflexivity..| |reflexivity|reflexivity|].
  - left.
  - exists l, p. split; [exact Hlist|]. split; [exact Hin|exact Hdeleted].
Defined.

Lemma generate_guards_witness :
  exec prisma (Notes.generate (Some "u1") unfiled_body) shared_world
  = (Returned (Respond 400 (JError "Saving requires a categoryId.")), shared_world, []).
Proof.
  apply (proj2 (generate_guards prisma unfiled_body shared_world) "u1"); reflexivity.
Defined.

Lemma generate_without_saving_witness :
  exec prisma (Notes.generate (Some "u1") draft_body) shared_world
  = (Returned (Respond 200 (JGenerated "# Title" None)), shared_world,
     [Ev (GenerateFullNote (note_options draft_body)) (Ok "# Title")]).
Proof.
  exact (generate_without_saving prisma "u1" draft_body shared_world eq_refl).
Defined.

Lemma generate_saves_note_witness :
  exists i w' e,
    (exec prisma (Notes.generate (Some "u1") save_body) shared_world).1
      = (Returned (Respond 200
           (JGenerated "# Title" (Some (i, Some "0000000000000000")))), w') /\
    entries w' !! i = Some e /\
    title e = "Title" /\ content e = "# Title" /\ isPublic e = true.
Proof.
  assert (Hrun : exists i w',
            (exec prisma (Notes.generate (Some "u1") save_body) shared_world).1
            = (Returned (Respond 200
                 (JGenerated "# Title" (Some (i, Some "0000000000000000")))), w'))
    by (vm_compute; by eexists _, _).
  destruct Hrun as (i & w' & Hrun).
  destruct (generate_saves_note _ _ _ _ _ _ _ Hrun)
    as (u & c & _ & _ & _ & _ & _ & _ & Hw).
  exists i, w'. eexists. split; [exact Hrun|].
  rewrite Hw, lookup_insert_eq. split; [reflexivity|]. repeat split.
Defined.

Lemma generate_reports_unknown_category_as_failure_witness :
  exists w',
    (exec prisma (Notes.generate (Some "u1") orphan_body) shared_world).1
      = (Returned (Respond 500 (JError "Failed to generate or save note.")), w') /\
    entries w' = entries shared_world.
Proof.
  exact (generate_reports_unknown_category_as_failure shared_world "u1" orphan_body "c9"
           eq_refl eq_refl eq_refl).
Defined.

Lemma toString_hex_injective_witness : toString_hex [x00] <> toString_hex [x01].
Proof. apply (toString_hex_injective [x00] [x01]). discriminate. Defined.

Lemma allocator_stops_at_first_free_witness :
  exists earlier,
    probes (exec prisma generateUniqueShareId one_collision_world).2
      = ((fun t => (t, true)) <$> earlier) ++ [("ffffffffffffffff", false)] /\
    length earlier < 5.
Proof.
  assert (Hrun : exists w' tr,
            exec prisma generateUniqueShareId one_collision_world
            = (Returned "ffffffffffffffff", w', tr))
    by (vm_compute; by eexists _, _).
  destruct Hrun as (w' & tr & Hrun). rewrite Hrun.
  exact (allocator_stops_at_first_free prisma _ _ _ _ Hrun).
Defined.

(** The first line of the note, without its heading marker. *)
Example fallback_title_of_heading :
  fallbackTitle ("## Shopping list" ++ String "010" "milk and tea")%string = "Shopping list".
Proof. vm_compute. reflexivity. Qed.

Example filename_of_title :
  SharedNotePage.filename "My note: v2" = "My_note__v2.pdf".
Proof. vm_compute. reflexivity. Qed.
